(** * Ledger reconstruction of the loan backend

    Shallow embedding of the two read-path enrichments of the server
    (the [loans.map] callback of [GET /api/loans] and the [deposits.map]
    callback of [GET /api/deposits]) and the properties of the ledger
    specification that concern them.

    Conventions of the embedding.
    - A JavaScript number that holds an amount or a rate is an exact rational
      ([Qc]): the specification calls these values decimals, and the
      model leaves the rounding of IEEE doubles out.
    - A [Date] is its time value in milliseconds, [None] for an Invalid Date;
      a difference of dates and everything computed from it is [None] when
      JavaScript gives NaN.
    - A stored field that may be absent is an [option]; an array entry that
      may be [null] is an [option] too.
    - A [try] block is a computation in the [outcome] monad. *)

From Stdlib Require Import ZArith QArith Qcanon Bool String List Lia Lqa.
From Stdlib Require Import Permutation Sorted.
From Stdlib Require Import Ascii DecimalString DecimalZ DecimalNat DecimalPos.
Import ListNotations.

Local Open Scope Z_scope.

(** ** The JavaScript primitives the handlers use *)

Module JS.

(** Amounts and rates. *)
Definition num : Type := Qc.

Definition num_of_Z (z : Z) : num := Q2Qc (inject_Z z).

(** [a < b] on numbers. *)
Definition ltb (a b : num) : bool :=
  match (a ?= b)%Qc with
  | Lt => true
  | _ => false
  end.

(** [Math.min(a, b)]. *)
Definition Math_min (a b : num) : num := if ltb b a then b else a.

(** [Number(x || 0)] for a stored numeric field: an absent field and the
    falsy number [0] both give [0]. *)
Definition Number_or0 (x : option num) : num :=
  match x with
  | Some v => v
  | None => 0%Qc
  end.

(** A stored date-like field.  [DateFalsy] stands for every falsy value
    (absent, [null], the empty string, ...); [DateLike t] for a truthy one,
    [t] being the time value of [new Date(v)], [None] when that is an
    Invalid Date. *)
Inductive datefield : Type :=
| DateFalsy
| DateLike (t : option Z).

Definition truthy (d : datefield) : bool :=
  match d with
  | DateFalsy => false
  | DateLike _ => true
  end.

(** Time value of [new Date(v)] for a field that passed a truthiness
    test. *)
Definition new_Date (d : datefield) : option Z :=
  match d with
  | DateFalsy => None
  | DateLike t => t
  end.

(** Time value of [new Date(v || 0)]. *)
Definition new_Date_or0 (d : datefield) : option Z :=
  match d with
  | DateFalsy => Some 0
  | DateLike t => t
  end.

(** [a - b] on two dates: NaN as soon as one of them is invalid. *)
Definition date_sub (a b : option Z) : option Z :=
  match a, b with
  | Some x, Some y => Some (x - y)
  | _, _ => None
  end.

Definition ms_per_day : Z := 1000 * 60 * 60 * 24.

(** [Math.max(0, Math.floor((a - b) / (1000 * 60 * 60 * 24)))]. *)
Definition whole_days (a b : option Z) : option Z :=
  match date_sub a b with
  | Some d => Some (Z.max 0 (d / ms_per_day))
  | None => None
  end.

(** [days > 0] and [days < n] on a day count that may be NaN: a comparison
    with NaN is false. *)
Definition days_gt0 (d : option Z) : bool :=
  match d with
  | Some n => 0 <? n
  | None => false
  end.

Definition days_lt (d : option Z) (n : Z) : bool :=
  match d with
  | Some k => k <? n
  | None => false
  end.

(** The day count as a factor of a product; only read under [days_gt0]. *)
Definition days_num (d : option Z) : num :=
  match d with
  | Some n => num_of_Z n
  | None => 0%Qc
  end.

(** Result of a block that may throw. *)
Inductive outcome (A : Type) : Type :=
| Ok (a : A)
| Throw.
Arguments Ok {A} a.
Arguments Throw {A}.

Definition bind {A B : Type} (m : outcome A) (k : A -> outcome B) : outcome B :=
  match m with
  | Ok a => k a
  | Throw => Throw
  end.

(** [try { body } catch (_) { handler }]. *)
Definition try_catch {A : Type} (body : outcome A) (handler : A) : A :=
  match body with
  | Ok a => a
  | Throw => handler
  end.

(** [Array.prototype.sort(compareFn)].  The comparator answers a number
    ([None] for NaN, which the language reads as [0]) or throws; [b] is
    moved before an earlier [a] only when [compareFn a b] is positive, so
    entries that compare as equal keep their order (the sort is stable).  The model is
    an insertion sort; on a comparator that is a total preorder every
    stable sort gives this result.  Where the comparator answers NaN for
    some pairs the order is the engine's own, and the theorems below state
    no order there. *)
Section Sort.
Context {A : Type} (compareFn : A -> A -> outcome (option Z)).

Definition goes_before (v : option Z) : bool :=
  match v with
  | Some n => n <=? 0
  | None => true
  end.

Fixpoint insert (x : A) (l : list A) : outcome (list A) :=
  match l with
  | [] => Ok [x]
  | y :: ys =>
      bind (compareFn x y) (fun v =>
        if goes_before v then Ok (x :: y :: ys)
        else bind (insert x ys) (fun r => Ok (y :: r)))
  end.

Fixpoint Array_sort (l : list A) : outcome (list A) :=
  match l with
  | [] => Ok []
  | x :: xs => bind (Array_sort xs) (insert x)
  end.
End Sort.

End JS.

Notation "x <- m ;; k" := (JS.bind m (fun x => k))
  (at level 61, m at next level, right associativity).

(** ** Stored records *)

(** An entry of [loan.partialRepayments]; [daysSinceLoan] is never read. *)
Module Repayment.
Record t : Type := mk {
  amount : option JS.num;
  date : JS.datefield
}.
End Repayment.

(** A stored loan, as [Loan.find(...).lean()] returns it.  [date] is the time
    value of [new Date(loan.date)]; [partialRepayments] is [None] when the
    field is not an array, and an entry of it is [None] when it is [null]. *)
Module Loan.
Record t : Type := mk {
  loanId : string;
  date : option Z;
  interestRate : option JS.num;
  amountGiven : option JS.num;
  amountReceived : option JS.num;
  partialRepayments : option (list (option Repayment.t))
}.
End Loan.

(** The object the callback returns: [{ ...loan, amountReceived,
    remainingPrincipal, dueAmount }].  [stored] is the loan the fields are
    spread from; the [amountReceived] of the view is the one of the returned
    object, which replaces the stored one. *)
Module LoanView.
Record t : Type := mk {
  stored : Loan.t;
  amountReceived : option JS.num;
  remainingPrincipal : option JS.num;
  dueAmount : option JS.num
}.
End LoanView.

(** An entry of [deposit.transactions]; [balanceAfter] is [None] unless
    [typeof balanceAfter === 'number']. *)
Module Tx.
Record t : Type := mk {
  type : string;
  amount : option JS.num;
  balanceAfter : option JS.num;
  dateAD : JS.datefield
}.
End Tx.

Module Deposit.
Record t : Type := mk {
  depositId : string;
  transactions : option (list (option Tx.t))
}.
End Deposit.

(** [{ ...d, currentBalance }]. *)
Module DepositView.
Record t : Type := mk {
  stored : Deposit.t;
  currentBalance : JS.num
}.
End DepositView.

(** ** The wall clock

    [new Date()] without argument reads the clock of the process.  The world
    holds the readings the clock will give, one per call. *)
Module Clock.
Record world : Type := mk {
  ticks : nat;
  readings : nat -> Z
}.

Definition io (A : Type) : Type := world -> A * world.

Definition ret {A : Type} (a : A) : io A := fun w => (a, w).

Definition new_Date_now : io Z :=
  fun w => (readings w (ticks w), mk (S (ticks w)) (readings w)).

(** [list.map(f)] for a callback that reads the clock. *)
Fixpoint map_io {A B : Type} (f : A -> io B) (l : list A) : io (list B) :=
  match l with
  | [] => ret []
  | x :: xs =>
      fun w =>
        let (y, w1) := f x w in
        let (ys, w2) := map_io f xs w1 in
        (y :: ys, w2)
  end.
End Clock.

(** ** Loan enrichment: the callback of [loans.map] in [GET /api/loans] *)

Module Loans.
Import JS.

Local Open Scope Qc_scope.

(** The variables of one run of the callback. *)
Record ledger : Type := mkLedger {
  principal : num;
  accrued : num;
  interestPaid : num;
  extraInterestPaid : num;
  lastDate : option Z
}.

(** [(loan.interestRate || 0) / 365 / 100]. *)
Definition dailyRate (loan : Loan.t) : num :=
  Number_or0 (Loan.interestRate loan) / num_of_Z 365 / num_of_Z 100.

(** [.filter(e => e && e.date)]: the entries that are not [null] and whose
    [date] is truthy. *)
Fixpoint filter_dated (l : list (option Repayment.t)) : list Repayment.t :=
  match l with
  | [] => []
  | None :: rest => filter_dated rest
  | Some e :: rest =>
      if truthy (Repayment.date e) then e :: filter_dated rest
      else filter_dated rest
  end.

(** [(a, b) => new Date(a.date) - new Date(b.date)]. *)
Definition by_date (a b : Repayment.t) : outcome (option Z) :=
  Ok (date_sub (new_Date (Repayment.date a)) (new_Date (Repayment.date b))).

(** [const events = Array.isArray(loan.partialRepayments) ? [...] : []]. *)
Definition events (loan : Loan.t) : outcome (list Repayment.t) :=
  match Loan.partialRepayments loan with
  | Some l => Array_sort by_date (filter_dated l)
  | None => Ok []
  end.

(** [if (days > 0 && principal > 0) accrued += principal * dailyRate * days],
    as the new value of [accrued]. *)
Definition accrue (rate : num) (p acc : num) (days : option Z) : num :=
  if days_gt0 days && ltb 0 p then acc + p * rate * days_num days else acc.

Definition set_accrued (st : ledger) (a : num) : ledger :=
  mkLedger (principal st) a (interestPaid st) (extraInterestPaid st) (lastDate st).

Definition set_lastDate (st : ledger) (d : option Z) : ledger :=
  mkLedger (principal st) (accrued st) (interestPaid st) (extraInterestPaid st) d.

(** The allocation of [payment = Number(ev.amount || 0)]: the
    [if (payment < 0) ... else if (payment > 0) ...] of the loop body. *)
Definition allocate (payment : num) (st : ledger) : ledger :=
  if ltb payment 0 then
    mkLedger (principal st + (- payment)) (accrued st)
             (interestPaid st) (extraInterestPaid st) (lastDate st)
  else if ltb 0 payment then
    let interestPortion := Math_min payment (accrued st) in
    let accrued2 := accrued st - interestPortion in
    let interestPaid2 := interestPaid st + interestPortion in
    let payment1 := payment - interestPortion in
    let principalPortion := Math_min payment1 (principal st) in
    let principal2 :=
      if ltb 0 payment1 then principal st - principalPortion else principal st in
    let payment2 :=
      if ltb 0 payment1 then payment1 - principalPortion else payment1 in
    let extra2 :=
      if ltb 0 payment2 then extraInterestPaid st + payment2
      else extraInterestPaid st in
    mkLedger principal2 accrued2 interestPaid2 extra2 (lastDate st)
  else st.

(** The body of [for (const ev of events)]: accrual up to the event, the
    allocation of its amount, then [lastDate = evDate]. *)
Definition step (rate : num) (st : ledger) (ev : Repayment.t) : ledger :=
  let evDate := new_Date (Repayment.date ev) in
  let days := whole_days evDate (lastDate st) in
  let st1 := set_accrued st (accrue rate (principal st) (accrued st) days) in
  let st2 := allocate (Number_or0 (Repayment.amount ev)) st1 in
  set_lastDate st2 evDate.

(** The variables before the loop. *)
Definition start (loan : Loan.t) : ledger :=
  mkLedger (Number_or0 (Loan.amountGiven loan)) 0 0 0 (Loan.date loan).

(** The event loop. *)
Definition walk (rate : num) (st : ledger) (evs : list Repayment.t) : ledger :=
  fold_left (step rate) evs st.

(** The tail segment from [lastDate] to [asOf]. *)
Definition tail (rate : num) (asOf : Z) (st : ledger) : ledger :=
  let tailDays := whole_days (Some asOf) (lastDate st) in
  set_accrued st (accrue rate (principal st) (accrued st) tailDays).

(** The 30-day minimum interest. *)
Definition enforce_minimum (loan : Loan.t) (asOf : Z) (st : ledger) : ledger :=
  let daysSinceStart := whole_days (Some asOf) (Loan.date loan) in
  if days_lt daysSinceStart 30 then
    let minInterest :=
      Number_or0 (Loan.amountGiven loan) * dailyRate loan * num_of_Z 30 in
    let paidSoFar := interestPaid st + extraInterestPaid st + accrued st in
    if ltb paidSoFar minInterest then
      set_accrued st (accrued st + (minInterest - paidSoFar))
    else st
  else st.

(** The variables when the callback builds its result. *)
Definition simulate (loan : Loan.t) (asOf : Z) (evs : list Repayment.t) : ledger :=
  enforce_minimum loan asOf
    (tail (dailyRate loan) asOf (walk (dailyRate loan) (start loan) evs)).

(** [Number(e.amount)] under [.filter(e => Number(e.amount || 0) > 0)], where
    the amount is a positive number. *)
Definition Number_amount (e : Repayment.t) : num :=
  Number_or0 (Repayment.amount e).

(** [events.filter(e => Number(e.amount || 0) > 0)
          .reduce((s, e) => s + Number(e.amount), 0)]. *)
Definition amountReceived (evs : list Repayment.t) : num :=
  fold_left (fun s e => s + Number_amount e)
    (filter (fun e => ltb 0 (Number_or0 (Repayment.amount e))) evs) 0.

(** The [try] block, once [asOf] has been read. *)
Definition enrich_body (asOf : Z) (loan : Loan.t) : outcome LoanView.t :=
  evs <- events loan ;;
  let st := simulate loan asOf evs in
  let dueAmount := principal st + accrued st in
  Ok (LoanView.mk loan (Some (amountReceived evs))
        (Some (principal st)) (Some dueAmount)).

(** The [catch] block: [{ ...loan, remainingPrincipal: loan.amountGiven,
    dueAmount: loan.amountGiven }]. *)
Definition fallback (loan : Loan.t) : LoanView.t :=
  LoanView.mk loan (Loan.amountReceived loan)
    (Loan.amountGiven loan) (Loan.amountGiven loan).

(** The callback, for a [try] block [body]. *)
Definition enrich_with (body : Z -> Loan.t -> outcome LoanView.t)
    (loan : Loan.t) : Clock.io LoanView.t :=
  fun w =>
    let (asOf, w1) := Clock.new_Date_now w in
    (try_catch (body asOf loan) (fallback loan), w1).

(** [loans.map((loan) => { try { ... } catch (_) { ... } })]. *)
Definition enrich_all_with (body : Z -> Loan.t -> outcome LoanView.t)
    (loans : list Loan.t) : Clock.io (list LoanView.t) :=
  Clock.map_io (enrich_with body) loans.

Definition enrich : Loan.t -> Clock.io LoanView.t := enrich_with enrich_body.

Definition enriched : list Loan.t -> Clock.io (list LoanView.t) :=
  enrich_all_with enrich_body.

End Loans.

(** ** Deposit enrichment: the callback of [deposits.map] in [GET /api/deposits] *)

Module Deposits.
Import JS.

Local Open Scope Qc_scope.

(** [t.dateAD] on an entry that may be [null]: reading a property of [null]
    throws a TypeError. *)
Definition get_dateAD (t : option Tx.t) : outcome datefield :=
  match t with
  | Some x => Ok (Tx.dateAD x)
  | None => Throw
  end.

(** [(a, b) => new Date(a.dateAD || 0) - new Date(b.dateAD || 0)]. *)
Definition by_dateAD (a b : option Tx.t) : outcome (option Z) :=
  da <- get_dateAD a ;;
  db <- get_dateAD b ;;
  Ok (date_sub (new_Date_or0 da) (new_Date_or0 db)).

(** The callback of [sorted.reduce]. *)
Definition reducer (bal : num) (t : option Tx.t) : outcome num :=
  match t with
  | None => Throw
  | Some x =>
      if String.eqb (Tx.type x) "Deposit" then
        Ok (bal + Number_or0 (Tx.amount x))
      else if String.eqb (Tx.type x) "Withdrawal" then
        Ok (bal - Number_or0 (Tx.amount x))
      else Ok bal
  end.

(** [sorted.reduce(callback, init)]. *)
Fixpoint reduce (l : list (option Tx.t)) (bal : num) : outcome num :=
  match l with
  | [] => Ok bal
  | t :: rest => b <- reducer bal t ;; reduce rest b
  end.

(** [sorted[sorted.length - 1]], [None] standing for [undefined]. *)
Definition last_entry (l : list (option Tx.t)) : option (option Tx.t) :=
  match l with
  | [] => None
  | x :: rest => Some (List.last rest x)
  end.

(** The [try] block, as the value [currentBalance] holds when it ends. *)
Definition balance_body (d : Deposit.t) : outcome num :=
  match Deposit.transactions d with
  | Some ((_ :: _) as txs) =>
      sorted <- Array_sort by_dateAD txs ;;
      match last_entry sorted with
      | Some (Some last) =>
          match Tx.balanceAfter last with
          | Some b => Ok b
          | None => reduce sorted 0
          end
      | _ => Throw
      end
  | _ => Ok 0
  end.

(** [let currentBalance = 0; try { ... } catch (_) {}]: a throw leaves the
    variable at [0], since each path of the block assigns it last. *)
Definition currentBalance (d : Deposit.t) : num :=
  try_catch (balance_body d) 0.

Definition enrich (d : Deposit.t) : DepositView.t :=
  DepositView.mk d (currentBalance d).

(** [deposits.map(d => ...)]. *)
Definition enriched (deposits : list Deposit.t) : list DepositView.t :=
  map enrich deposits.

End Deposits.

(** ** The algorithm in the words of the specification

    These definitions follow the text of the specification, on normalized
    data: dates are plain time values and amounts are plain numbers.  The
    theorems below compare them with the code. *)

Module Spec.
Import JS Loans.

Local Open Scope Qc_scope.

(** 4.2, step 3a: whole days from [lastDate] to [eventDate], never negative. *)
Definition elapsedDays (eventDate lastDate : Z) : Z :=
  Z.max 0 ((eventDate - lastDate) / 86400000).

(** 4.2, step 3b, and step 4 for the tail segment. *)
Definition accrued_after (rate p acc : num) (days : Z) : num :=
  if (0 <? days)%Z && ltb 0 p then acc + p * rate * num_of_Z days else acc.

(** 4.2, step 3d: the three portions of a payment, in order. *)
Definition allocate_payment (payment : num) (st : ledger) : ledger :=
  let interestPortion := Math_min payment (accrued st) in
  let remaining := payment - interestPortion in
  let principalPortion := Math_min remaining (principal st) in
  let remainder := remaining - principalPortion in
  mkLedger (principal st - principalPortion)
           (accrued st - interestPortion)
           (interestPaid st + interestPortion)
           (extraInterestPaid st + remainder)
           (lastDate st).

(** 4.3: the floor on a ledger, [daysSinceStart] days after origination. *)
Definition minimum_interest (amountGiven rate : num) (daysSinceStart : Z)
    (st : ledger) : ledger :=
  if (daysSinceStart <? 30)%Z then
    let minInterest := amountGiven * rate * num_of_Z 30 in
    let paidSoFar := interestPaid st + extraInterestPaid st + accrued st in
    if ltb paidSoFar minInterest
    then set_accrued st (accrued st + (minInterest - paidSoFar))
    else st
  else st.

(** The states a run goes through: after the accrual and after the
    allocation of each event. *)
Fixpoint states (rate : num) (st : ledger) (evs : list Repayment.t) : list ledger :=
  match evs with
  | [] => []
  | ev :: rest =>
      let days := whole_days (new_Date (Repayment.date ev)) (lastDate st) in
      let st1 := set_accrued st (accrue rate (principal st) (accrued st) days) in
      let st2 := step rate st ev in
      st1 :: st2 :: states rate st2 rest
  end.

(** Section 3: none of the four quantities of a ledger is negative. *)
Definition nonneg (st : ledger) : Prop :=
  0 <= principal st /\ 0 <= accrued st /\
  0 <= interestPaid st /\ 0 <= extraInterestPaid st.

(** The four quantities of two ledgers are the same. *)
Definition same_amounts (a b : ledger) : Prop :=
  principal a = principal b /\ accrued a = accrued b /\
  interestPaid a = interestPaid b /\ extraInterestPaid a = extraInterestPaid b.

(** 4.1 and 4.5: the ordering ascending by a date key in which entries of
    equal date keep their relative order. *)
Section StableSort.
Context {A : Type} (key : A -> Z).

Fixpoint stable_insert (x : A) (l : list A) : list A :=
  match l with
  | [] => [x]
  | y :: ys =>
      if (key x <=? key y)%Z then x :: y :: ys else y :: stable_insert x ys
  end.

Fixpoint stable_sort (l : list A) : list A :=
  match l with
  | [] => []
  | x :: xs => stable_insert x (stable_sort xs)
  end.

Definition ascending (l : list A) : Prop :=
  StronglySorted (fun a b => (key a <= key b)%Z) l.

(** The entries of [l] whose key is [k], in the order of [l]. *)
Definition with_key (k : Z) (l : list A) : list A :=
  filter (fun a => (key a =? k)%Z) l.
End StableSort.

(** The time value of a normalized event. *)
Definition time_of (e : Repayment.t) : Z :=
  match Repayment.date e with
  | DateLike (Some t) => t
  | _ => 0%Z
  end.

Definition parseable (e : Repayment.t) : Prop :=
  exists t, Repayment.date e = DateLike (Some t).

(** 4.5: the effective date of a transaction, the epoch when it has none. *)
Definition effective_date (t : Tx.t) : Z :=
  match Tx.dateAD t with
  | DateLike (Some z) => z
  | _ => 0%Z
  end.

Definition dated_or_dateless (t : Tx.t) : Prop :=
  Tx.dateAD t <> DateLike None.

(** 4.5: one step of the fold over the ordered transactions. *)
Definition fold_step (bal : num) (t : Tx.t) : num :=
  if String.eqb (Tx.type t) "Deposit" then bal + Number_or0 (Tx.amount t)
  else if String.eqb (Tx.type t) "Withdrawal" then bal - Number_or0 (Tx.amount t)
  else bal.

(** 4.5: the balance from the ordered transactions. *)
Definition balance_of (sorted : list Tx.t) : num :=
  match sorted with
  | [] => 0
  | x :: rest =>
      match Tx.balanceAfter (List.last rest x) with
      | Some b => b
      | None => fold_left fold_step sorted 0
      end
  end.

End Spec.

(** ** Sample records *)

Module Example.
Import JS.

Definition day (n : Z) : Z := n * 86400000.

Definition repayment (amount : Z) (t : Z) : Repayment.t :=
  Repayment.mk (Some (num_of_Z amount)) (DateLike (Some t)).

(** The end-to-end scenario of the specification: 10000 lent at 12 percent
    on day 0, one payment of 500 on day 40. *)
Definition loan12 : Loan.t :=
  Loan.mk "L-12" (Some (day 0)) (Some (num_of_Z 12)) (Some (num_of_Z 10000))
    (Some (num_of_Z 0)) (Some [Some (repayment 500 (day 40))]).

(** 1000 lent at 36.5 percent (a daily rate of one thousandth) on day 0,
    repaid by 100 on day 10 and by 100 on day 40. *)
Definition loan365 : Loan.t :=
  Loan.mk "L-365" (Some (day 0)) (Some (Q2Qc (365 # 10))) (Some (num_of_Z 1000))
    (Some (num_of_Z 0))
    (Some [Some (repayment 100 (day 10)); Some (repayment 100 (day 40))]).

(** An event of amount [0] at noon of day 39. *)
Definition zero_at_noon : Repayment.t := repayment 0 (day 39 + 43200000).

(** One valid payment of 50 and one of 1000000 whose date does not parse. *)
Definition unparseable : Repayment.t :=
  Repayment.mk (Some (num_of_Z 1000000)) (DateLike None).

Definition dateless : Repayment.t :=
  Repayment.mk (Some (num_of_Z 1000000)) DateFalsy.

Definition loan_unparseable : Loan.t :=
  Loan.mk "L-u" (Some (day 0)) (Some (num_of_Z 12)) (Some (num_of_Z 10000))
    None (Some [Some unparseable; Some (repayment 50 (day 1))]).

Definition loan_dateless : Loan.t :=
  Loan.mk "L-d" (Some (day 0)) (Some (num_of_Z 12)) (Some (num_of_Z 10000))
    None (Some [Some dateless; None; Some (repayment 50 (day 1))]).

(** A [try] block that throws on the loan ["L-u"] and is the one of the
    handler on every other loan. *)
Definition failing_body (asOf : Z) (loan : Loan.t) : outcome LoanView.t :=
  if String.eqb (Loan.loanId loan) "L-u" then Throw
  else Loans.enrich_body asOf loan.

(** Two worlds whose clocks agree on the first readings only. *)
Definition world1 : Clock.world :=
  Clock.mk 0 (fun i => if (i <? 3)%nat then day 50 else 0).

Definition world2 : Clock.world :=
  Clock.mk 7 (fun i => if (i <? 10)%nat then day 50 else 1).

Definition tx (type : string) (amount : Z) (balanceAfter : option Z)
    (dateAD : datefield) : Tx.t :=
  Tx.mk type (Some (num_of_Z amount)) (option_map num_of_Z balanceAfter) dateAD.

(** The scenario of the specification: a deposit of 100, then a withdrawal
    of 30, no recorded balance. *)
Definition deposit70 : Deposit.t :=
  Deposit.mk "D-70"
    (Some [Some (tx "Withdrawal" 30 None (DateLike (Some (day 2))));
           Some (tx "Deposit" 100 None (DateLike (Some (day 1))))]).

(** A dateless transaction and one dated the day before the epoch. *)
Definition tx_dateless : Tx.t := tx "Deposit" 5 (Some 5) DateFalsy.

Definition tx_1969 : Tx.t := tx "Deposit" 2 (Some 7) (DateLike (Some (day (-1)))).

Definition deposit_before_epoch : Deposit.t :=
  Deposit.mk "D-1969"
    (Some [Some tx_dateless; Some tx_1969]).

(** A transaction list with a [null] entry. *)
Definition deposit_null : Deposit.t :=
  Deposit.mk "D-null"
    (Some [Some (tx "Deposit" 100 (Some 100) (DateLike (Some (day 1)))); None]).

End Example.

(** ** Sums over the events of a loan *)

Module Totals.
Import JS.

Local Open Scope Qc_scope.



(** The terms of two loans are the same: the fields the simulation reads,
    the repayments apart. *)
Definition same_terms (a b : Loan.t) : Prop :=
  Loan.date a = Loan.date b
  /\ Loan.interestRate a = Loan.interestRate b
  /\ Loan.amountGiven a = Loan.amountGiven b.

End Totals.

(** ** The backup utility ([backup.js]) *)

Module Backup.
Import JS.

Local Open Scope Qc_scope.

(** A JavaScript string, as the list of its characters. *)
Definition str : Type := list ascii.

(** [String(n)] and the conversion of a template literal, on an integer. *)
Definition String_of_Z (z : Z) : str :=
  list_ascii_of_string (NilZero.string_of_int (Z.to_int z)).

Definition String_of_nat (n : nat) : str :=
  list_ascii_of_string (NilZero.string_of_uint (Nat.to_uint n)).

(** [s.padStart(n, c)] for a filler [c] of one character. *)
Definition padStart (n : nat) (c : ascii) (s : str) : str :=
  repeat c (n - List.length s) ++ s.

(** What a valid [Date] answers to the getters [formatDate] calls. *)
Record date : Type := mkDate {
  getFullYear : Z;
  getMonth : nat;
  getDate : nat;
  getHours : nat;
  getMinutes : nat
}.

Definition formatDate (d : date) : str :=
  let year := getFullYear d in
  let month := padStart 2 "0" (String_of_nat (getMonth d + 1)) in
  let day := padStart 2 "0" (String_of_nat (getDate d)) in
  let hours := padStart 2 "0" (String_of_nat (getHours d)) in
  let minutes := padStart 2 "0" (String_of_nat (getMinutes d)) in
  String_of_Z year ++ month ++ day ++ ["_"%char] ++ hours ++ minutes.

(** A two-digit field of the name. *)
Definition pad2 (n : nat) : str := padStart 2 "0" (String_of_nat n).

(** The fields of a date are in the ranges of the getters. *)
Definition in_range (d : date) : Prop :=
  (getMonth d <= 11)%nat /\ (getDate d <= 31)%nat
  /\ (getHours d <= 23)%nat /\ (getMinutes d <= 59)%nat.


(** An entry of the backup directory: its name and the [mtimeMs] that
    [fs.statSync] answers for it, [None] when [statSync] throws on it (a
    dangling link, for one). *)
Record entry : Type := mkEntry {
  name : string;
  mtimeMs : option num
}.

(** [fs.statSync(path.join(BACKUP_DIR, backup))], as the [mtimeMs] of the
    answer: throws when there is no such entry or when its stat fails. *)
Definition statSync (dir : list entry) (backup : string) : outcome num :=
  match find (fun e => String.eqb (name e) backup) dir with
  | Some e =>
      match mtimeMs e with
      | Some m => Ok m
      | None => Throw
      end
  | None => Throw
  end.

(** [fs.rmSync(path, { recursive: true, force: true })]. *)
Definition rmSync (dir : list entry) (backup : string) : list entry :=
  filter (fun e => negb (String.eqb (name e) backup)) dir.

(** [(now - stats.mtimeMs) / (1000 * 60 * 60 * 24)]. *)
Definition ageInDays (now : Z) (stats : num) : num :=
  (num_of_Z now - stats) / num_of_Z (1000 * 60 * 60 * 24).

(** [backups.forEach(backup => { ... })] of [cleanOldBackups], on the
    directory and the count of deletions. *)
Fixpoint forEach_backup (retention now : Z) (backups : list string)
    (dir : list entry) (deletedCount : nat) : outcome (list entry * nat) :=
  match backups with
  | [] => Ok (dir, deletedCount)
  | backup :: rest =>
      stats <- statSync dir backup ;;
      if ltb (num_of_Z retention) (ageInDays now stats)
      then forEach_backup retention now rest (rmSync dir backup)
             (S deletedCount)
      else forEach_backup retention now rest dir deletedCount
  end.

(** [cleanOldBackups()], with [fs.readdirSync(BACKUP_DIR)] the names of the
    directory and [now = Date.now()]. *)
Definition cleanOldBackups (retention now : Z) (dir : list entry)
    : outcome (list entry * nat) :=
  forEach_backup retention now (map name dir) dir 0.

(** The test [ageInDays > RETENTION_DAYS] of the loop, on an entry. *)
Definition too_old (retention now : Z) (e : entry) : bool :=
  match mtimeMs e with
  | Some m => ltb (num_of_Z retention) (ageInDays now m)
  | None => false
  end.

End Backup.

(** ** The authentication middleware ([authenticateToken]) *)

Module Auth.
Import JS.

Definition str : Type := list ascii.

(** [s.split(sep)] for a separator [sep] of one character. *)
Fixpoint split (sep : ascii) (s : str) : list str :=
  match s with
  | [] => [[]]
  | c :: rest =>
      if Ascii.eqb c sep then [] :: split sep rest
      else match split sep rest with
           | piece :: pieces => (c :: piece) :: pieces
           | [] => [[c]]
           end
  end.

(** [const token = authHeader && authHeader.split(' ')[1]], as the token
    when it is truthy: [None] stands for every value that [!token]
    rejects ([undefined] and the empty string). *)
Definition token_of (authHeader : option str) : option str :=
  match authHeader with
  | None => None
  | Some h =>
      match nth_error (split " " h) 1 with
      | Some (c :: t) => Some (c :: t)
      | _ => None
      end
  end.

(** What the middleware does with the request. *)
Inductive verdict (Id User : Type) : Type :=
| Status401_token_required
| Status403_not_found_or_inactive
| Status403_invalid_token
| Next (userId : Id) (user : User).
Arguments Status401_token_required {Id User}.
Arguments Status403_not_found_or_inactive {Id User}.
Arguments Status403_invalid_token {Id User}.
Arguments Next {Id User} userId user.

Section Middleware.
(** [jwt.verify(token, secret)] answers the [userId] of the payload or
    throws; [User.findById] answers a user, [null], or throws. *)
Context {Id User : Type}.
Context (verify : str -> outcome Id).
Context (findById : Id -> outcome (option User)).
Context (isActive : User -> bool).

Definition authenticateToken (authHeader : option str) : verdict Id User :=
  try_catch
    (match token_of authHeader with
     | None => Ok Status401_token_required
     | Some token =>
         decoded <- verify token ;;
         user <- findById decoded ;;
         match user with
         | Some u =>
             if isActive u then Ok (Next decoded u)
             else Ok Status403_not_found_or_inactive
         | None => Ok Status403_not_found_or_inactive
         end
     end)
    Status403_invalid_token.
End Middleware.

End Auth.

(** ** More sample records *)

Module Sample.
Import JS.


(** A ledger with 1000 of principal and 10 of accrued interest. *)
Definition owing : Loans.ledger :=
  Loans.mkLedger (num_of_Z 1000) (num_of_Z 10) (num_of_Z 0) (num_of_Z 0)
    (Some (Example.day 0)).

(** 1000 lent at zero percent, 100 repaid on day 10. *)
Definition loan_free : Loan.t :=
  Loan.mk "L-free" (Some (Example.day 0)) (Some (num_of_Z 0))
    (Some (num_of_Z 1000)) None
    (Some [Some (Example.repayment 100 (Example.day 10))]).

(** 10000 lent at 12 percent, with no entry that passes the normalizer. *)
Definition loan_plain : Loan.t :=
  Loan.mk "L-plain" (Some (Example.day 0)) (Some (num_of_Z 12))
    (Some (num_of_Z 10000)) None (Some [Some Example.dateless; None]).

(** The loan [Example.loan365] with its repayments stored the other way
    round. *)
Definition loan365_reversed : Loan.t :=
  Loan.mk "L-365r" (Some (Example.day 0)) (Some (Q2Qc (365 # 10)))
    (Some (num_of_Z 1000)) (Some (num_of_Z 0))
    (Some [Some (Example.repayment 100 (Example.day 40));
           Some (Example.repayment 100 (Example.day 10))]).

(** 11 October 2024, 14:30. *)
Definition october : Backup.date := Backup.mkDate 2024 9 11 14 30.

(** A backup of day 0 and one of day 40. *)
Definition old_backup : Backup.entry :=
  Backup.mkEntry "backup_old" (Some (num_of_Z (Example.day 0))).

Definition new_backup : Backup.entry :=
  Backup.mkEntry "backup_new" (Some (num_of_Z (Example.day 40))).

(** A link in the backup directory whose target is gone. *)
Definition dangling_link : Backup.entry := Backup.mkEntry "latest" None.

Definition bearer : Auth.str := list_ascii_of_string "Bearer".

Definition abc : Auth.str := list_ascii_of_string "abc".

End Sample.

(** * Properties *)

(** ** Arithmetic of amounts *)

Lemma ltb_lt (a b : JS.num) : JS.ltb a b = true <-> (a < b)%Qc.
Proof.
  unfold JS.ltb. rewrite Qclt_alt.
  destruct (a ?= b)%Qc; split; intro H; try reflexivity; discriminate.
Qed.

Lemma ltb_ge (a b : JS.num) : JS.ltb a b = false <-> (b <= a)%Qc.
Proof.
  split; intro H.
  - apply Qcnot_lt_le. intro L. apply ltb_lt in L. congruence.
  - destruct (JS.ltb a b) eqn:E; [|reflexivity].
    apply ltb_lt in E. exfalso. exact (Qcle_not_lt _ _ H E).
Qed.

(** Goals on [Qc] read as goals on [Q], for [lra] and [nra]. *)
Lemma this_Q2Qc (q : Q) : (this (Q2Qc q) == q)%Q.
Proof. simpl. apply Qred_correct. Qed.

Ltac to_Q :=
  change JS.num with Qc in *;
  unfold Qcle, Qclt, Qcminus, Qcdiv, Qcplus, Qcmult, Qcopp, Qcinv in *;
  repeat match goal with
         | |- @eq Qc _ _ => apply Qc_is_canon
         | H : context [this (Q2Qc ?q)] |- _ => rewrite (this_Q2Qc q) in H
         | |- context [this (Q2Qc ?q)] => rewrite (this_Q2Qc q)
         end.

Lemma inject_Z_nonneg (n : Z) : (0 <= n)%Z -> (0 <= inject_Z n)%Q.
Proof. intro H. unfold Qle. simpl. lia. Qed.

Lemma num_of_Z_nonneg (n : Z) : (0 <= n)%Z -> (0 <= JS.num_of_Z n)%Qc.
Proof.
  intro H. unfold JS.num_of_Z. to_Q. now apply inject_Z_nonneg.
Qed.

Lemma mult_nonneg (x y : Qc) : (0 <= x -> 0 <= y -> 0 <= x * y)%Qc.
Proof. intros Hx Hy. to_Q. now apply Qmult_le_0_compat. Qed.

Lemma plus_nonneg (x y : Qc) : (0 <= x -> 0 <= y -> 0 <= x + y)%Qc.
Proof. intros Hx Hy. to_Q. lra. Qed.

Lemma Math_min_cases (a b : JS.num) :
  (JS.Math_min a b = b /\ (b < a)%Qc) \/ (JS.Math_min a b = a /\ (a <= b)%Qc).
Proof.
  unfold JS.Math_min. destruct (JS.ltb b a) eqn:E.
  - left. split; [reflexivity | now apply ltb_lt].
  - right. split; [reflexivity | now apply ltb_ge].
Qed.

Lemma days_gt0_nonneg (d : option Z) :
  JS.days_gt0 d = true -> (0 <= JS.days_num d)%Qc.
Proof.
  destruct d as [n|]; simpl; [|discriminate].
  intro H. apply Z.ltb_lt in H. apply num_of_Z_nonneg. lia.
Qed.

(** ** The day count *)

Lemma ms_per_day_value : JS.ms_per_day = 86400000%Z.
Proof. reflexivity. Qed.

Lemma whole_days_valid (a b : Z) :
  JS.whole_days (Some a) (Some b) = Some (Spec.elapsedDays a b).
Proof. reflexivity. Qed.

Lemma accrue_valid (rate p acc : JS.num) (a b : Z) :
  Loans.accrue rate p acc (JS.whole_days (Some a) (Some b))
  = Spec.accrued_after rate p acc (Spec.elapsedDays a b).
Proof. reflexivity. Qed.

(** ** The event walk *)

Section Walk.
Import JS Loans.
Local Open Scope Qc_scope.

Lemma walk_app (rate : num) (st : ledger) (l1 l2 : list Repayment.t) :
  walk rate st (l1 ++ l2) = walk rate (walk rate st l1) l2.
Proof. unfold walk. apply fold_left_app. Qed.

Lemma accrue_nonneg (rate p acc : num) (days : option Z) :
  0 <= rate -> 0 <= p -> 0 <= acc -> 0 <= accrue rate p acc days.
Proof.
  intros Hr Hp Ha. unfold accrue.
  destruct (days_gt0 days) eqn:D; simpl; [|assumption].
  destruct (ltb 0 p); [|assumption].
  apply plus_nonneg; [assumption|].
  apply mult_nonneg; [now apply mult_nonneg | now apply days_gt0_nonneg].
Qed.

Lemma allocate_principal_nonneg (payment : num) (st : ledger) :
  0 <= principal st -> 0 <= principal (allocate payment st).
Proof.
  intro Hp. unfold allocate.
  destruct (ltb payment 0) eqn:N; simpl.
  - apply ltb_lt in N. to_Q. lra.
  - destruct (ltb 0 payment) eqn:P; simpl; [|assumption].
    destruct (ltb 0 (payment - Math_min payment (accrued st))); [|assumption].
    destruct (Math_min_cases (payment - Math_min payment (accrued st)) (principal st))
      as [[-> H]|[-> H]]; to_Q; lra.
Qed.

Lemma step_principal_nonneg (rate : num) (st : ledger) (ev : Repayment.t) :
  0 <= principal st -> 0 <= principal (step rate st ev).
Proof.
  intro Hp. unfold step. simpl.
  now apply allocate_principal_nonneg.
Qed.

Lemma walk_principal_nonneg (rate : num) (evs : list Repayment.t) (st : ledger) :
  0 <= principal st -> 0 <= principal (walk rate st evs).
Proof.
  revert st. induction evs as [|ev evs IH]; intros st Hp; simpl.
  - assumption.
  - apply IH. now apply step_principal_nonneg.
Qed.

(** On a ledger whose principal is not negative, the guarded allocation of
    the code and the unguarded one of the specification agree. *)
Lemma allocate_payment_spec (payment : num) (st : ledger) :
  0 < payment -> 0 <= principal st ->
  allocate payment st = Spec.allocate_payment payment st.
Proof.
  intros Hpay Hp. unfold allocate, Spec.allocate_payment.
  assert (N : ltb payment 0 = false) by (apply ltb_ge; now apply Qclt_le_weak).
  assert (P : ltb 0 payment = true) by now apply ltb_lt.
  rewrite N, P.
  set (ip := Math_min payment (accrued st)).
  assert (Hrem : 0 <= payment - ip).
  { subst ip. destruct (Math_min_cases payment (accrued st)) as [[-> H]|[-> H]];
      to_Q; lra. }
  destruct (ltb 0 (payment - ip)) eqn:R.
  - set (pp := Math_min (payment - ip) (principal st)).
    assert (Hrest : 0 <= payment - ip - pp).
    { subst pp.
      destruct (Math_min_cases (payment - ip) (principal st)) as [[-> H]|[-> H]];
        to_Q; lra. }
    destruct (ltb 0 (payment - ip - pp)) eqn:X; [reflexivity|].
    apply ltb_ge in X.
    assert (Z0 : payment - ip - pp = 0) by now apply Qcle_antisym.
    rewrite Z0. f_equal. to_Q. lra.
  - apply ltb_ge in R.
    assert (Z0 : payment - ip = 0) by now apply Qcle_antisym.
    rewrite Z0.
    assert (M : Math_min 0 (principal st) = 0).
    { destruct (Math_min_cases 0 (principal st)) as [[_ H]|[-> _]];
        [|reflexivity].
      exfalso. exact (Qcle_not_lt _ _ Hp H). }
    rewrite M.
    assert (L : ltb 0 0 = false) by (apply ltb_ge; apply Qcle_refl).
    rewrite L. f_equal; to_Q; lra.
Qed.

End Walk.

(** ** The interest accrual simulator *)

Section Simulator.
Import JS Loans.
Local Open Scope Qc_scope.

Lemma num_of_Z_neq0 (n : Z) : n <> 0%Z -> num_of_Z n <> 0.
Proof.
  intros Hn E. apply (f_equal this) in E.
  assert (Q : (inject_Z n == 0)%Q).
  { rewrite <- (this_Q2Qc (inject_Z n)). unfold num_of_Z in E. rewrite E.
    reflexivity. }
  unfold Qeq in Q. simpl in Q. lia.
Qed.

Lemma dailyRate_times (loan : Loan.t) :
  dailyRate loan * num_of_Z 365 * num_of_Z 100
  = Number_or0 (Loan.interestRate loan).
Proof.
  unfold dailyRate. field.
  split; apply num_of_Z_neq0; discriminate.
Qed.


(** C2.  In a run on loan terms with [amountGiven >= 0], a payment
    ([amount > 0]) is allocated in strict order: [min(payment, accrued)]
    leaves [accrued] for [interestPaid], then [min(remaining, principal)]
    leaves [principal], and what is left goes to [extraInterestPaid]. *)
Theorem payment_allocated_in_order
    (loan : Loan.t) (before : list Repayment.t) (ev : Repayment.t) :
  0 <= Number_or0 (Loan.amountGiven loan) ->
  0 < Number_or0 (Repayment.amount ev) ->
  let rate := dailyRate loan in
  let st := walk rate (start loan) before in
  let evDate := new_Date (Repayment.date ev) in
  let st1 :=
    set_accrued st
      (accrue rate (principal st) (accrued st) (whole_days evDate (lastDate st))) in
  step rate st ev
  = set_lastDate
      (Spec.allocate_payment (Number_or0 (Repayment.amount ev)) st1) evDate.
Proof.
  intros Hg Hpay rate st evDate st1.
  unfold step. fold evDate. fold st1.
  rewrite allocate_payment_spec; [reflexivity | assumption |].
  subst st1. simpl. subst st. now apply walk_principal_nonneg.
Qed.

(** C3.  The minimum-interest floor is applied once, to the ledger left by
    the event walk and the tail: with
    [daysSinceStart = max 0 (floor ((asOf - origination) / 86400000))], the
    result is that ledger when [daysSinceStart >= 30]; otherwise [accrued]
    is raised by [minInterest - paidSoFar] exactly when
    [minInterest > paidSoFar], for
    [minInterest = amountGiven * dailyRate * 30] and
    [paidSoFar = interestPaid + extraInterestPaid + accrued]. *)
Theorem minimum_interest_after_walk
    (loan : Loan.t) (asOf : Z) (evs : list Repayment.t) (origination : Z) :
  Loan.date loan = Some origination ->
  let rate := dailyRate loan in
  let st := tail rate asOf (walk rate (start loan) evs) in
  let daysSinceStart := Spec.elapsedDays asOf origination in
  let minInterest := Number_or0 (Loan.amountGiven loan) * rate * num_of_Z 30 in
  let paidSoFar := interestPaid st + extraInterestPaid st + accrued st in
  simulate loan asOf evs
  = Spec.minimum_interest (Number_or0 (Loan.amountGiven loan)) rate
      daysSinceStart st
  /\ ((30 <= daysSinceStart)%Z -> simulate loan asOf evs = st)
  /\ ((daysSinceStart < 30)%Z -> paidSoFar < minInterest ->
      simulate loan asOf evs
      = set_accrued st (accrued st + (minInterest - paidSoFar)))
  /\ ((daysSinceStart < 30)%Z -> minInterest <= paidSoFar ->
      simulate loan asOf evs = st).
Proof.
  intros Hd rate st days minI paid.
  assert (E : simulate loan asOf evs
              = Spec.minimum_interest (Number_or0 (Loan.amountGiven loan)) rate
                  days st).
  { unfold simulate, enforce_minimum. rewrite Hd.
    rewrite whole_days_valid. reflexivity. }
  split; [exact E|].
  rewrite E. unfold Spec.minimum_interest. fold minI. fold paid.
  repeat split.
  - intro H. apply Z.ltb_ge in H. now rewrite H.
  - intros H L. apply Z.ltb_lt in H. rewrite H.
    apply ltb_lt in L. now rewrite L.
  - intros H L. apply Z.ltb_lt in H. rewrite H.
    apply ltb_ge in L. now rewrite L.
Qed.

End Simulator.

(** ** Sorting *)

Section StableSortFacts.
Context {A : Type} (key : A -> Z).

Lemma stable_insert_perm (x : A) (l : list A) :
  Permutation (Spec.stable_insert key x l) (x :: l).
Proof.
  induction l as [|y ys IH]; simpl.
  - apply Permutation_refl.
  - destruct (key x <=? key y)%Z.
    + apply Permutation_refl.
    + eapply perm_trans; [apply perm_skip, IH | apply perm_swap].
Qed.

Lemma stable_sort_perm (l : list A) : Permutation (Spec.stable_sort key l) l.
Proof.
  induction l as [|x xs IH]; simpl.
  - constructor.
  - eapply perm_trans; [apply stable_insert_perm | now apply perm_skip].
Qed.

Lemma stable_insert_ascending (x : A) (l : list A) :
  Spec.ascending key l -> Spec.ascending key (Spec.stable_insert key x l).
Proof.
  unfold Spec.ascending.
  induction l as [|y ys IH]; intro S; simpl.
  - repeat constructor.
  - destruct (key x <=? key y)%Z eqn:E.
    + apply Z.leb_le in E. constructor; [assumption|].
      constructor; [assumption|].
      apply StronglySorted_inv in S. destruct S as [_ F].
      eapply Forall_impl; [|exact F]. intros a Ha. simpl in Ha. lia.
    + apply Z.leb_gt in E.
      apply StronglySorted_inv in S. destruct S as [S F].
      constructor; [now apply IH|].
      apply (Permutation_Forall (x := x :: ys)).
      * apply Permutation_sym, stable_insert_perm.
      * constructor; [lia | assumption].
Qed.

Lemma stable_sort_ascending (l : list A) :
  Spec.ascending key (Spec.stable_sort key l).
Proof.
  induction l as [|x xs IH]; simpl.
  - constructor.
  - now apply stable_insert_ascending.
Qed.

Lemma stable_insert_with_key (k : Z) (x : A) (l : list A) :
  Spec.with_key key k (Spec.stable_insert key x l)
  = Spec.with_key key k (x :: l).
Proof.
  unfold Spec.with_key.
  induction l as [|y ys IH]; simpl; [reflexivity|].
  destruct (key x <=? key y)%Z eqn:E; [reflexivity|].
  apply Z.leb_gt in E. simpl. rewrite IH. simpl.
  destruct (key y =? k)%Z eqn:Y; [|reflexivity].
  apply Z.eqb_eq in Y.
  assert (X : (key x =? k)%Z = false) by (apply Z.eqb_neq; lia).
  now rewrite X.
Qed.

Lemma stable_sort_with_key (k : Z) (l : list A) :
  Spec.with_key key k (Spec.stable_sort key l) = Spec.with_key key k l.
Proof.
  induction l as [|x xs IH]; simpl; [reflexivity|].
  rewrite stable_insert_with_key. unfold Spec.with_key in *. simpl.
  now rewrite IH.
Qed.

End StableSortFacts.

Section ArraySortFacts.
Import JS.
Context {A : Type} (compareFn : A -> A -> outcome (option Z)).

Lemma insert_perm (x : A) (l r : list A) :
  insert compareFn x l = Ok r -> Permutation r (x :: l).
Proof.
  revert r. induction l as [|y ys IH]; intros r; simpl.
  - intros [= <-]. apply Permutation_refl.
  - destruct (compareFn x y) as [v|]; simpl; [|discriminate].
    destruct (goes_before v).
    + intros [= <-]. apply Permutation_refl.
    + destruct (insert compareFn x ys) as [r'|]; simpl; [|discriminate].
      intros [= <-].
      eapply perm_trans; [apply perm_skip, IH; reflexivity | apply perm_swap].
Qed.

Lemma Array_sort_perm (l s : list A) :
  Array_sort compareFn l = Ok s -> Permutation s l.
Proof.
  revert s. induction l as [|x xs IH]; intros s; simpl.
  - intros [= <-]. constructor.
  - destruct (Array_sort compareFn xs) as [s'|]; simpl; [|discriminate].
    intro H. apply insert_perm in H.
    eapply perm_trans; [exact H | apply perm_skip, IH; reflexivity].
Qed.

(** A comparator that never throws makes the sort succeed. *)
Lemma Array_sort_total (l : list A) :
  (forall x y, exists v, compareFn x y = Ok v) ->
  exists s, Array_sort compareFn l = Ok s.
Proof.
  intro T.
  assert (I : forall x l', exists r, insert compareFn x l' = Ok r).
  { intros x l'. induction l' as [|y ys [r IH]]; simpl.
    - eexists; reflexivity.
    - destruct (T x y) as [v ->]. simpl.
      destruct (goes_before v); [eexists; reflexivity|].
      rewrite IH. simpl. eexists; reflexivity. }
  induction l as [|x xs [s IH]]; simpl.
  - eexists; reflexivity.
  - rewrite IH. simpl. apply I.
Qed.

(** On entries that the comparator orders by a key, the sort of the
    language is the stable ordering by that key. *)
Context (key : A -> Z) (good : A -> Prop).
Hypothesis compare_by_key :
  forall x y, good x -> good y -> compareFn x y = Ok (Some (key x - key y)).

Lemma insert_by_key (x : A) (l : list A) :
  good x -> Forall good l ->
  insert compareFn x l = Ok (Spec.stable_insert key x l).
Proof.
  intros Gx Gl. induction Gl as [|y ys Gy Gys IH]; simpl; [reflexivity|].
  rewrite (compare_by_key x y Gx Gy). simpl.
  replace (key x - key y <=? 0)%Z with (key x <=? key y)%Z.
  - destruct (key x <=? key y)%Z; [reflexivity|]. now rewrite IH.
  - destruct (key x <=? key y)%Z eqn:E.
    + apply Z.leb_le in E. symmetry. apply Z.leb_le. lia.
    + apply Z.leb_gt in E. symmetry. apply Z.leb_gt. lia.
Qed.

Lemma Array_sort_by_key (l : list A) :
  Forall good l -> Array_sort compareFn l = Ok (Spec.stable_sort key l).
Proof.
  intro Gl. induction Gl as [|x xs Gx Gxs IH]; simpl; [reflexivity|].
  rewrite IH. simpl. apply insert_by_key; [assumption|].
  apply (Permutation_Forall (x := xs)); [|assumption].
  apply Permutation_sym, stable_sort_perm.
Qed.

End ArraySortFacts.

(** ** The event normalizer *)

Section Normalizer.
Import JS Loans.

Lemma filter_dated_In (raw : list (option Repayment.t)) (e : Repayment.t) :
  In e (filter_dated raw)
  <-> In (Some e) raw /\ truthy (Repayment.date e) = true.
Proof.
  induction raw as [|[x|] rest IH]; simpl.
  - tauto.
  - destruct (truthy (Repayment.date x)) eqn:T; simpl; rewrite IH.
    + split.
      * intros [<-|[H1 H2]]; auto.
      * intros [[[= <-]|H1] H2]; auto.
    + split.
      * intros [H1 H2]; auto.
      * intros [[[= <-]|H1] H2]; [congruence | auto].
  - rewrite IH. split.
    + intros [H1 H2]; auto.
    + intros [[H|H1] H2]; [discriminate | auto].
Qed.

Lemma by_date_parseable (a b : Repayment.t) :
  Spec.parseable a -> Spec.parseable b ->
  by_date a b = Ok (Some (Spec.time_of a - Spec.time_of b)%Z).
Proof.
  intros [ta Ha] [tb Hb]. unfold by_date, Spec.time_of.
  now rewrite Ha, Hb.
Qed.

(** The normalizer never throws. *)
Lemma events_total (loan : Loan.t) : exists evs, events loan = Ok evs.
Proof.
  unfold events. destruct (Loan.partialRepayments loan) as [raw|].
  - apply Array_sort_total. intros x y. eexists. reflexivity.
  - eexists. reflexivity.
Qed.

(** C4, as the code has it.  The normalizer raises no error; it keeps
    exactly the entries that are not [null] and whose date is present
    (truthy), an unparseable date included; and when every date it kept
    parses, the result is those entries in ascending order of date, entries
    of equal date in their original order. *)
Theorem normalizer_keeps_dated_in_stable_order (loan : Loan.t) :
  exists evs,
    events loan = Ok evs
    /\ (Loan.partialRepayments loan = None -> evs = [])
    /\ forall raw,
         Loan.partialRepayments loan = Some raw ->
         Permutation evs (filter_dated raw)
         /\ (forall e, In e evs
                       <-> In (Some e) raw /\ truthy (Repayment.date e) = true)
         /\ (Forall Spec.parseable (filter_dated raw) ->
             evs = Spec.stable_sort Spec.time_of (filter_dated raw)
             /\ Spec.ascending Spec.time_of evs
             /\ forall t, Spec.with_key Spec.time_of t evs
                          = Spec.with_key Spec.time_of t (filter_dated raw)).
Proof.
  destruct (events_total loan) as [evs E]. exists evs.
  split; [exact E|]. split.
  - intro N. unfold events in E. rewrite N in E. now inversion E.
  - intros raw R. unfold events in E. rewrite R in E.
    pose proof (Array_sort_perm _ _ _ E) as P.
    split; [exact P|]. split.
    + intro e. rewrite <- filter_dated_In. split; intro H.
      * eapply Permutation_in; [exact P | exact H].
      * eapply Permutation_in; [apply Permutation_sym; exact P | exact H].
    + intro V.
      rewrite (Array_sort_by_key by_date Spec.time_of Spec.parseable
                 by_date_parseable _ V) in E.
      injection E as <-.
      split; [reflexivity|]. split.
      * apply stable_sort_ascending.
      * intro t. apply stable_sort_with_key.
Qed.

(** C4, as the claim has it, fails: an entry whose date is present but does
    not parse is not dropped; it reaches the event list and the sum of the
    amounts received. *)
Lemma unparseable_date_is_not_dropped :
  exists evs,
    events Example.loan_unparseable = Ok evs
    /\ In Example.unparseable evs
    /\ Repayment.date Example.unparseable = DateLike None
    /\ amountReceived evs = num_of_Z 1000050.
Proof.
  exists [Example.unparseable; Example.repayment 50 (Example.day 1)].
  split; [reflexivity|]. split; [now left|]. split; [reflexivity|].
  apply Qc_is_canon. vm_compute. reflexivity.
Qed.

End Normalizer.

(** ** The facade over a batch *)

Section Facade.
Import JS Loans.

Lemma map_io_length {A B : Type} (f : A -> Clock.io B) (l : list A)
    (w : Clock.world) :
  List.length (fst (Clock.map_io f l w)) = List.length l.
Proof.
  revert w. induction l as [|x xs IH]; intro w; simpl; [reflexivity|].
  destruct (f x w) as [y w1]. specialize (IH w1).
  destruct (Clock.map_io f xs w1) as [ys w2]. simpl in *. now rewrite IH.
Qed.

(** The view of the record at position [i] is made from that record and
    the [i]-th reading of the clock, and from nothing else. *)
Lemma enrich_all_nth (body : Z -> Loan.t -> outcome LoanView.t)
    (loans : list Loan.t) (w : Clock.world) (i : nat) :
  nth_error (fst (enrich_all_with body loans w)) i
  = option_map
      (fun loan =>
         try_catch (body (Clock.readings w (Clock.ticks w + i)) loan)
                   (fallback loan))
      (nth_error loans i).
Proof.
  unfold enrich_all_with.
  revert w i. induction loans as [|x xs IH]; intros w i; simpl.
  - now destruct i.
  - specialize (IH (Clock.mk (S (Clock.ticks w)) (Clock.readings w))).
    destruct (Clock.map_io (enrich_with body) xs
                (Clock.mk (S (Clock.ticks w)) (Clock.readings w)))
      as [ys w2] eqn:M.
    simpl in *. destruct i as [|i]; simpl.
    + now rewrite Nat.add_0_r.
    + rewrite IH. simpl. now rewrite Nat.add_succ_r.
Qed.

(** The [try] block of the handler never throws on a stored loan. *)
Lemma enrich_body_total (asOf : Z) (loan : Loan.t) :
  exists view, enrich_body asOf loan = Ok view.
Proof.
  unfold enrich_body. destruct (events_total loan) as [evs ->]. simpl.
  eexists. reflexivity.
Qed.

(** C5.  Whatever the [try] block does, a record on which it throws does
    not abort the batch: the batch keeps its length, that record comes back
    with [remainingPrincipal] and [dueAmount] set to the stored
    [amountGiven] and its stored fields as they are, and a record on which
    the block succeeds comes back as the block enriched it. *)
Theorem failure_is_contained_per_record
    (body : Z -> Loan.t -> outcome LoanView.t)
    (loans : list Loan.t) (w : Clock.world) (i : nat) (loan : Loan.t) :
  nth_error loans i = Some loan ->
  let out := fst (enrich_all_with body loans w) in
  let asOf := Clock.readings w (Clock.ticks w + i) in
  List.length out = List.length loans
  /\ (body asOf loan = Throw ->
      nth_error out i
      = Some (LoanView.mk loan (Loan.amountReceived loan)
                (Loan.amountGiven loan) (Loan.amountGiven loan)))
  /\ (forall view, body asOf loan = Ok view -> nth_error out i = Some view).
Proof.
  intros H out asOf. split.
  - apply map_io_length.
  - subst out. rewrite enrich_all_nth, H. simpl. fold asOf.
    split.
    + intros ->. reflexivity.
    + intros view ->. reflexivity.
Qed.

(** C9.  Two runs of the handler over the same loans, in worlds whose
    clocks give the same as-of readings, return the same views: nothing
    else of the world is read. *)
Theorem enrichment_is_deterministic
    (loans : list Loan.t) (w1 w2 : Clock.world) :
  (forall i, (i < List.length loans)%nat ->
             Clock.readings w1 (Clock.ticks w1 + i)
             = Clock.readings w2 (Clock.ticks w2 + i)) ->
  fst (enriched loans w1) = fst (enriched loans w2).
Proof.
  intro H. apply nth_error_ext. intro i. unfold enriched.
  rewrite !enrich_all_nth.
  destruct (nth_error loans i) as [loan|] eqn:E; [|reflexivity].
  simpl. rewrite H; [reflexivity|].
  apply nth_error_Some. congruence.
Qed.

End Facade.

(** ** The deposit balance reconstructor *)

Section Reconstructor.
Import JS Deposits.
Local Open Scope Qc_scope.

Lemma stable_insert_map {A B : Type} (f : A -> B) (key : B -> Z)
    (x : A) (l : list A) :
  Spec.stable_insert key (f x) (map f l)
  = map f (Spec.stable_insert (fun a => key (f a)) x l).
Proof.
  induction l as [|y ys IH]; simpl; [reflexivity|].
  destruct (key (f x) <=? key (f y))%Z; [reflexivity|].
  simpl. now rewrite IH.
Qed.

Lemma stable_sort_map {A B : Type} (f : A -> B) (key : B -> Z) (l : list A) :
  Spec.stable_sort key (map f l)
  = map f (Spec.stable_sort (fun a => key (f a)) l).
Proof.
  induction l as [|x xs IH]; simpl; [reflexivity|].
  rewrite IH. apply stable_insert_map.
Qed.

Lemma last_map {A B : Type} (f : A -> B) (l : list A) (d : A) :
  List.last (map f l) (f d) = f (List.last l d).
Proof.
  induction l as [|x [|y ys] IH]; simpl in *; auto.
Qed.

(** The key by which the comparator orders an entry that is not [null]. *)
Lemma by_dateAD_key (a b : option Tx.t) :
  (exists x, a = Some x /\ Spec.dated_or_dateless x) ->
  (exists y, b = Some y /\ Spec.dated_or_dateless y) ->
  by_dateAD a b
  = Ok (Some (match a with Some x => Spec.effective_date x | None => 0%Z end
              - match b with Some y => Spec.effective_date y | None => 0%Z end)%Z).
Proof.
  intros [x [-> Hx]] [y [-> Hy]].
  unfold by_dateAD, Spec.effective_date, Spec.dated_or_dateless in *. simpl.
  destruct (Tx.dateAD x) as [|[tx|]], (Tx.dateAD y) as [|[ty|]];
    simpl; try reflexivity; congruence.
Qed.

Lemma sort_transactions (txs : list Tx.t) :
  Forall Spec.dated_or_dateless txs ->
  Array_sort by_dateAD (map Some txs)
  = Ok (map Some (Spec.stable_sort Spec.effective_date txs)).
Proof.
  intro V.
  rewrite (Array_sort_by_key by_dateAD
             (fun o => match o with
                       | Some x => Spec.effective_date x
                       | None => 0%Z
                       end)
             (fun o => exists x, o = Some x /\ Spec.dated_or_dateless x)
             by_dateAD_key).
  - now rewrite stable_sort_map.
  - apply Forall_map. eapply Forall_impl; [|exact V].
    intros x Hx. now exists x.
Qed.

Lemma reduce_fold (l : list Tx.t) (bal : num) :
  reduce (map Some l) bal = Ok (fold_left Spec.fold_step l bal).
Proof.
  revert bal. induction l as [|x xs IH]; intro bal; simpl; [reflexivity|].
  unfold Spec.fold_step at 2.
  destruct (Tx.type x =? "Deposit")%string; simpl; [apply IH|].
  destruct (Tx.type x =? "Withdrawal")%string; simpl; apply IH.
Qed.

(** C6, as the code has it.  On a non-empty list of transactions, none
    [null] and none with an unparseable date, the reconstructor orders the
    transactions ascending by effective date, the epoch (time value 0) for a
    dateless one, entries of equal date in their original order; the
    balance is the numeric [balanceAfter] of the last one when it has one,
    and otherwise the fold from 0 that adds each Deposit, subtracts each
    Withdrawal and skips any other kind. *)
Theorem balance_from_ordered_transactions (d : Deposit.t) (txs : list Tx.t) :
  Deposit.transactions d = Some (map Some txs) ->
  txs <> [] ->
  Forall Spec.dated_or_dateless txs ->
  let sorted := Spec.stable_sort Spec.effective_date txs in
  Array_sort by_dateAD (map Some txs) = Ok (map Some sorted)
  /\ Permutation sorted txs
  /\ Spec.ascending Spec.effective_date sorted
  /\ (forall k, Spec.with_key Spec.effective_date k sorted
                = Spec.with_key Spec.effective_date k txs)
  /\ (forall x, In x txs -> Tx.dateAD x = DateFalsy ->
                Spec.effective_date x = 0%Z)
  /\ currentBalance d = Spec.balance_of sorted.
Proof.
  intros T N V sorted.
  pose proof (sort_transactions txs V) as S. fold sorted in S.
  split; [exact S|].
  split; [apply stable_sort_perm|].
  split; [apply stable_sort_ascending|].
  split; [intro k; apply stable_sort_with_key|].
  split.
  - intros x _ Hx. unfold Spec.effective_date. now rewrite Hx.
  - unfold currentBalance, balance_body. rewrite T.
    destruct txs as [|x xs]; [congruence|].
    change (map Some (x :: xs)) with (Some x :: map Some xs) in *.
    rewrite S. simpl bind.
    assert (P : Permutation sorted (x :: xs)) by apply stable_sort_perm.
    clearbody sorted.
    destruct sorted as [|y ys].
    + exfalso. exact (Permutation_nil_cons P).
    + unfold last_entry, Spec.balance_of.
      change (map Some (y :: ys)) with (Some y :: map Some ys).
      cbv iota. rewrite last_map.
      destruct (Tx.balanceAfter (List.last ys y)); [reflexivity|].
      change (Some y :: map Some ys) with (map Some (y :: ys)).
      now rewrite reduce_fold.
Qed.

(** C6, as the claim has it, fails: a dateless transaction does not sort
    earliest when another one is dated before the epoch; it is the last of
    the ordering here, and its recorded balance is the one returned. *)
Lemma dateless_is_not_always_earliest :
  Deposit.transactions Example.deposit_before_epoch
  = Some [Some Example.tx_dateless; Some Example.tx_1969]
  /\ Array_sort by_dateAD [Some Example.tx_dateless; Some Example.tx_1969]
     = Ok [Some Example.tx_1969; Some Example.tx_dateless]
  /\ currentBalance Example.deposit_before_epoch = num_of_Z 5
  /\ Tx.balanceAfter Example.tx_1969 = Some (num_of_Z 7).
Proof.
  repeat split.
Qed.

(** A [null] entry makes the sort throw, unless it is alone. *)
Lemma sort_with_null (l s : list (option Tx.t)) :
  Array_sort by_dateAD l = Ok s -> In None l -> l = [None].
Proof.
  revert s. induction l as [|x xs IH]; intros s S I; [destruct I|].
  simpl in S.
  destruct (Array_sort by_dateAD xs) as [s'|] eqn:E; simpl in S;
    [|discriminate].
  destruct I as [->|I].
  - destruct s' as [|y ys].
    + apply Array_sort_perm in E. apply Permutation_nil in E. now subst xs.
    + simpl in S. discriminate.
  - specialize (IH s' eq_refl I). subst xs.
    simpl in E. injection E as <-.
    destruct x; simpl in S; discriminate.
Qed.

(** C7.  An empty transaction list gives [currentBalance = 0]; so does a
    [try] block that throws, which happens as soon as an entry of the list
    is [null]; the error does not reach the caller, who gets a view for
    every deposit. *)
Theorem empty_or_failed_reconstruction_is_zero (d : Deposit.t) :
  (Deposit.transactions d = Some [] -> currentBalance d = 0)
  /\ (balance_body d = Throw -> currentBalance d = 0)
  /\ (forall txs, Deposit.transactions d = Some txs -> In None txs ->
                  balance_body d = Throw)
  /\ enrich d = DepositView.mk d (currentBalance d).
Proof.
  repeat split.
  - intro E. unfold currentBalance, balance_body. now rewrite E.
  - intro E. unfold currentBalance. now rewrite E.
  - intros txs T I. unfold balance_body. rewrite T.
    destruct txs as [|x xs]; [destruct I|].
    destruct (Array_sort by_dateAD (x :: xs)) as [s|] eqn:S; [|reflexivity].
    pose proof (sort_with_null _ _ S I) as L.
    rewrite L in S. simpl in S. injection S as <-. reflexivity.
Qed.

End Reconstructor.

(** ** Signs of the ledger *)

Section Signs.
Import JS Loans.
Local Open Scope Qc_scope.

Lemma dailyRate_nonneg (loan : Loan.t) :
  0 <= Number_or0 (Loan.interestRate loan) -> 0 <= dailyRate loan.
Proof.
  intro H. rewrite <- dailyRate_times in H.
  assert (A : 0 < num_of_Z 365 * num_of_Z 100) by (vm_compute; reflexivity).
  rewrite <- Qcmult_assoc in H.
  set (k := num_of_Z 365 * num_of_Z 100) in *.
  destruct (Qclt_le_dec (dailyRate loan) 0) as [L|G]; [|exact G].
  exfalso. apply (Qcmult_lt_compat_r _ _ k A) in L.
  rewrite Qcmult_0_l in L. exact (Qcle_not_lt _ _ H L).
Qed.

Lemma allocate_nonneg (payment : num) (st : ledger) :
  Spec.nonneg st -> Spec.nonneg (allocate payment st).
Proof.
  intros (Hp & Ha & Hi & He).
  pose proof (allocate_principal_nonneg payment st Hp) as Hp'.
  unfold Spec.nonneg. split; [exact Hp'|]. clear Hp'.
  unfold allocate.
  destruct (ltb payment 0) eqn:N; simpl; [auto|].
  destruct (ltb 0 payment) eqn:P; simpl; [|auto].
  apply ltb_lt in P.
  set (ip := Math_min payment (accrued st)).
  assert (I : 0 <= ip /\ ip <= accrued st).
  { subst ip. destruct (Math_min_cases payment (accrued st)) as [[-> H]|[-> H]];
      split; to_Q; lra. }
  destruct I as [I0 I1].
  split; [to_Q; lra|]. split; [to_Q; lra|].
  destruct (ltb 0 (payment - ip)) eqn:R.
  - destruct (ltb 0 (payment - ip - Math_min (payment - ip) (principal st))) eqn:X;
      [|assumption].
    apply ltb_lt in X. to_Q. lra.
  - rewrite R. assumption.
Qed.

Lemma set_accrued_nonneg (st : ledger) (a : num) :
  Spec.nonneg st -> 0 <= a -> Spec.nonneg (set_accrued st a).
Proof. intros (Hp & _ & Hi & He) Ha. repeat split; assumption. Qed.

Lemma accrual_nonneg (rate : num) (st : ledger) (days : option Z) :
  0 <= rate -> Spec.nonneg st ->
  Spec.nonneg (set_accrued st (accrue rate (principal st) (accrued st) days)).
Proof.
  intros Hr N. apply set_accrued_nonneg; [exact N|].
  destruct N as (Hp & Ha & _). now apply accrue_nonneg.
Qed.

Lemma step_nonneg (rate : num) (st : ledger) (ev : Repayment.t) :
  0 <= rate -> Spec.nonneg st -> Spec.nonneg (step rate st ev).
Proof.
  intros Hr N. unfold step.
  pose proof (allocate_nonneg (Number_or0 (Repayment.amount ev)) _
                (accrual_nonneg rate st
                   (whole_days (new_Date (Repayment.date ev)) (lastDate st))
                   Hr N)) as H.
  exact H.
Qed.

Lemma states_nonneg (rate : num) (evs : list Repayment.t) (st : ledger) :
  0 <= rate -> Spec.nonneg st -> Forall Spec.nonneg (Spec.states rate st evs).
Proof.
  intro Hr. revert st. induction evs as [|ev evs IH]; intros st N; simpl.
  - constructor.
  - constructor; [now apply accrual_nonneg|].
    constructor; [now apply step_nonneg|].
    apply IH. now apply step_nonneg.
Qed.

Lemma walk_nonneg (rate : num) (evs : list Repayment.t) (st : ledger) :
  0 <= rate -> Spec.nonneg st -> Spec.nonneg (walk rate st evs).
Proof.
  intro Hr. revert st. induction evs as [|ev evs IH]; intros st N; simpl.
  - exact N.
  - apply IH. now apply step_nonneg.
Qed.

Lemma enforce_minimum_nonneg (loan : Loan.t) (asOf : Z) (st : ledger) :
  Spec.nonneg st -> Spec.nonneg (enforce_minimum loan asOf st).
Proof.
  intro N. unfold enforce_minimum.
  destruct (days_lt _ 30); [|exact N].
  match goal with |- context [ltb ?a ?b] => destruct (ltb a b) eqn:L end;
    [|exact N].
  apply ltb_lt in L. apply set_accrued_nonneg; [exact N|].
  destruct N as (_ & Ha & _). to_Q. lra.
Qed.

(** C10.  On loan terms with [amountGiven >= 0] and [interestRate >= 0],
    and for any list of events, none of [principal], [accrued],
    [interestPaid] and [extraInterestPaid] is negative after the accrual or
    after the allocation of any event, after the tail accrual or after the
    minimum-interest floor; the view the handler builds has
    [remainingPrincipal >= 0] and [dueAmount >= 0]. *)
Theorem ledger_is_never_negative
    (loan : Loan.t) (asOf : Z) (evs : list Repayment.t) :
  0 <= Number_or0 (Loan.amountGiven loan) ->
  0 <= Number_or0 (Loan.interestRate loan) ->
  let rate := dailyRate loan in
  Forall Spec.nonneg (Spec.states rate (start loan) evs)
  /\ Spec.nonneg (walk rate (start loan) evs)
  /\ Spec.nonneg (tail rate asOf (walk rate (start loan) evs))
  /\ Spec.nonneg (simulate loan asOf evs)
  /\ exists view p due,
       enrich_body asOf loan = Ok view
       /\ LoanView.remainingPrincipal view = Some p
       /\ LoanView.dueAmount view = Some due
       /\ 0 <= p /\ 0 <= due.
Proof.
  intros Hg Hi rate.
  assert (Hr : 0 <= rate) by now apply dailyRate_nonneg.
  assert (N0 : Spec.nonneg (start loan)).
  { unfold Spec.nonneg, start. simpl. repeat split; try assumption;
      apply Qcle_refl. }
  assert (T : forall l, Spec.nonneg (tail rate asOf (walk rate (start loan) l))).
  { intro l. unfold tail. apply accrual_nonneg; [exact Hr|].
    now apply walk_nonneg. }
  assert (S : forall l, Spec.nonneg (simulate loan asOf l)).
  { intro l. unfold simulate. apply enforce_minimum_nonneg. apply T. }
  split; [now apply states_nonneg|].
  split; [now apply walk_nonneg|].
  split; [apply T|]. split; [apply S|].
  unfold enrich_body. destruct (events_total loan) as [l ->]. simpl.
  destruct (S l) as (Hp & Ha & _).
  eexists. exists (principal (simulate loan asOf l)).
  exists (principal (simulate loan asOf l) + accrued (simulate loan asOf l)).
  repeat split; try assumption. now apply plus_nonneg.
Qed.

End Signs.

(** ** Events of amount zero *)

Section ZeroAmount.
Import JS Loans.
Local Open Scope Qc_scope.

Lemma elapsedDays_nonneg (a b : Z) : (0 <= Spec.elapsedDays a b)%Z.
Proof. unfold Spec.elapsedDays. lia. Qed.

Lemma elapsedDays_same (a : Z) : Spec.elapsedDays a a = 0%Z.
Proof. unfold Spec.elapsedDays. now rewrite Z.sub_diag. Qed.

(** No whole day, no accrual. *)
Lemma accrued_after_no_days (rate p acc : num) :
  Spec.accrued_after rate p acc 0 = acc.
Proof. reflexivity. Qed.

(** Two consecutive accruals on the same principal, one of them over no
    whole day and the other over the days of the whole segment: the same
    single accrual, with no arithmetic between the two. *)
Lemma accrued_after_unsplit (rate p acc : num) (d1 d2 d : Z) :
  (d1 = 0 /\ d2 = d)%Z \/ (d2 = 0 /\ d1 = d)%Z ->
  Spec.accrued_after rate p (Spec.accrued_after rate p acc d1) d2
  = Spec.accrued_after rate p acc d.
Proof.
  intros [[-> ->]|[-> ->]]; now rewrite !accrued_after_no_days.
Qed.

Lemma allocate_zero (st : ledger) : allocate 0 st = st.
Proof. reflexivity. Qed.

(** The allocation neither reads nor writes [lastDate]. *)
Lemma allocate_set_lastDate (payment : num) (st : ledger) (d : option Z) :
  allocate payment (set_lastDate st d) = set_lastDate (allocate payment st) d.
Proof.
  unfold allocate. simpl.
  destruct (ltb payment 0); [reflexivity|].
  destruct (ltb 0 payment); reflexivity.
Qed.

Lemma enforce_minimum_same_amounts (loan : Loan.t) (asOf : Z) (a b : ledger) :
  Spec.same_amounts a b ->
  Spec.same_amounts (enforce_minimum loan asOf a) (enforce_minimum loan asOf b).
Proof.
  intros (Hp & Ha & Hi & He). unfold enforce_minimum.
  destruct (days_lt _ 30); [|repeat split; assumption].
  rewrite Hi, He, Ha.
  match goal with |- context [ltb ?x ?y] => destruct (ltb x y) end;
    repeat split; simpl; assumption.
Qed.

(** A zero-amount event met at [lastDate = l]: accrual only. *)
Lemma step_zero (rate : num) (st : ledger) (z : Repayment.t) (t l : Z) :
  Number_or0 (Repayment.amount z) = 0 ->
  Repayment.date z = DateLike (Some t) ->
  lastDate st = Some l ->
  step rate st z
  = set_lastDate
      (set_accrued st
         (Spec.accrued_after rate (principal st) (accrued st)
            (Spec.elapsedDays t l)))
      (Some t).
Proof.
  intros Hz Hd Hl. unfold step. rewrite Hz, Hd, Hl. simpl new_Date.
  rewrite accrue_valid. now rewrite allocate_zero.
Qed.

Lemma amountReceived_skip_zero (before after : list Repayment.t)
    (z : Repayment.t) :
  Number_or0 (Repayment.amount z) = 0 ->
  amountReceived (before ++ z :: after) = amountReceived (before ++ after).
Proof.
  intro Hz. unfold amountReceived. rewrite !filter_app. simpl.
  now rewrite Hz.
Qed.

(** C8, as the code has it.  An event of amount zero allocates nothing: it
    accrues for the whole days since [lastDate] and moves [lastDate] to its
    date.  Put between a date [l] and the next date [n] (of the next event,
    or the as-of instant after the last one), it leaves the final principal,
    accrued interest, interestPaid, extraInterestPaid, amountReceived and
    dueAmount as they are when it carries the date [l] or the date [n], and
    more generally when one of the two segments it makes has no whole day
    and the other has the whole days of the segment from [l] to [n]: the
    same accruals are then computed, on the same values. *)
Theorem zero_amount_event_without_lost_days
    (loan : Loan.t) (asOf : Z) (before after : list Repayment.t)
    (z : Repayment.t) (t l n : Z) :
  Number_or0 (Repayment.amount z) = 0 ->
  Repayment.date z = DateLike (Some t) ->
  let rate := dailyRate loan in
  let st := walk rate (start loan) before in
  lastDate st = Some l ->
  match after with
  | [] => Some asOf
  | e :: _ => new_Date (Repayment.date e)
  end = Some n ->
  (t = l \/ t = n
   \/ (Spec.elapsedDays t l = 0
       /\ Spec.elapsedDays n t = Spec.elapsedDays n l)
   \/ (Spec.elapsedDays n t = 0
       /\ Spec.elapsedDays t l = Spec.elapsedDays n l))%Z ->
  let with_z := simulate loan asOf (before ++ z :: after) in
  let without := simulate loan asOf (before ++ after) in
  step rate st z
  = set_lastDate
      (set_accrued st
         (Spec.accrued_after rate (principal st) (accrued st)
            (Spec.elapsedDays t l)))
      (Some t)
  /\ Spec.same_amounts with_z without
  /\ principal with_z + accrued with_z = principal without + accrued without
  /\ amountReceived (before ++ z :: after) = amountReceived (before ++ after).
Proof.
  intros Hz Hd rate st Hl Hn Hwhere with_z without.
  assert (Hc : (Spec.elapsedDays t l = 0
                /\ Spec.elapsedDays n t = Spec.elapsedDays n l)%Z
               \/ (Spec.elapsedDays n t = 0
                   /\ Spec.elapsedDays t l = Spec.elapsedDays n l)%Z).
  { destruct Hwhere as [->|[->|[H|H]]].
    - left. split; [apply elapsedDays_same | reflexivity].
    - right. split; [apply elapsedDays_same | reflexivity].
    - now left.
    - now right. }
  clear Hwhere.
  pose proof (step_zero rate st z t l Hz Hd Hl) as Sz.
  split; [exact Sz|].
  assert (Same : Spec.same_amounts with_z without).
  { subst with_z without. unfold simulate. fold rate.
    rewrite !walk_app. fold st. simpl walk at 1.
    change (fold_left (step rate) after (step rate st z))
      with (walk rate (step rate st z) after).
    rewrite Sz.
    destruct after as [|e rest].
    - injection Hn as <-. simpl walk.
      apply enforce_minimum_same_amounts.
      unfold tail. simpl. rewrite Hl. rewrite !accrue_valid.
      rewrite (accrued_after_unsplit _ _ _ _ _ _ Hc).
      repeat split.
    - simpl in Hn.
      assert (E : step rate
                    (set_lastDate
                       (set_accrued st
                          (Spec.accrued_after rate (principal st) (accrued st)
                             (Spec.elapsedDays t l))) (Some t)) e
                  = step rate st e).
      { unfold step. simpl. rewrite Hn, Hl. rewrite !accrue_valid.
        rewrite (accrued_after_unsplit _ _ _ _ _ _ Hc).
        change (set_accrued
                  (set_lastDate
                     (set_accrued st
                        (Spec.accrued_after rate (principal st) (accrued st)
                           (Spec.elapsedDays t l))) (Some t))
                  (Spec.accrued_after rate (principal st) (accrued st)
                     (Spec.elapsedDays n l)))
          with (set_lastDate
                  (set_accrued st
                     (Spec.accrued_after rate (principal st) (accrued st)
                        (Spec.elapsedDays n l))) (Some t)).
        rewrite allocate_set_lastDate. reflexivity. }
      simpl walk. unfold walk in *. rewrite E. repeat split. }
  split; [exact Same|]. split.
  - destruct Same as (-> & -> & _). reflexivity.
  - now apply amountReceived_skip_zero.
Qed.

(** C8, as the claim has it, fails: a zero-amount event at noon of day 39,
    between the payments of day 10 and day 40, resets [lastDate] and the
    half days on either side of it accrue nothing; the final principal and
    the amount due change. *)
Lemma zero_amount_event_changes_the_result :
  let loan := Example.loan365 in
  let e1 := Example.repayment 100 (Example.day 10) in
  let e2 := Example.repayment 100 (Example.day 40) in
  let z := Example.zero_at_noon in
  let asOf := Example.day 50 in
  let with_z := simulate loan asOf [e1; z; e2] in
  let without := simulate loan asOf [e1; e2] in
  Number_or0 (Repayment.amount z) = 0
  /\ (Spec.time_of e1 <= Spec.time_of z <= Spec.time_of e2)%Z
  /\ principal with_z <> principal without
  /\ principal with_z + accrued with_z <> principal without + accrued without.
Proof.
  cbv zeta. split; [reflexivity|]. split; [vm_compute; split; discriminate|].
  split; intro H; apply (f_equal this) in H; vm_compute in H; discriminate.
Qed.

End ZeroAmount.

(** ** The scenarios of the specification, evaluated *)

Section Scenarios.
Import JS Loans.
Local Open Scope Qc_scope.

(** 10000 at 12 percent, 500 paid on day 40: the payment clears the accrued
    9600/73 (about 131.5) and takes the rest from the principal, which is
    left at 703100/73 (about 9631.5). *)
Example scenario_payment_on_day_40 :
  let st := walk (dailyRate Example.loan12) (start Example.loan12)
              [Example.repayment 500 (Example.day 40)] in
  principal st = Q2Qc (703100 # 73)
  /\ accrued st = 0
  /\ interestPaid st = Q2Qc (9600 # 73)
  /\ extraInterestPaid st = 0.
Proof.
  cbv zeta. repeat split; apply Qc_is_canon; vm_compute; reflexivity.
Qed.

(** A dateless event of 1000000 is kept out of the sum of amounts received. *)
Example scenario_dateless_event :
  exists evs,
    events Example.loan_dateless = Ok evs
    /\ amountReceived evs = num_of_Z 50.
Proof.
  exists [Example.repayment 50 (Example.day 1)].
  split; [reflexivity|]. apply Qc_is_canon. vm_compute. reflexivity.
Qed.

(** A deposit of 100 then a withdrawal of 30, no recorded balance: 70. *)
Example scenario_deposit_70 :
  Deposits.currentBalance Example.deposit70 = num_of_Z 70.
Proof. apply Qc_is_canon. vm_compute. reflexivity. Qed.

End Scenarios.

(** ** The theorems on the sample records *)

Section Instances.
Import JS Loans.
Local Open Scope Qc_scope.


Lemma payment_allocated_in_order_witness :
  let loan := Example.loan12 in
  let ev := Example.repayment 500 (Example.day 40) in
  let rate := dailyRate loan in
  let st := start loan in
  let evDate := new_Date (Repayment.date ev) in
  0 <= Number_or0 (Loan.amountGiven loan)
  /\ 0 < Number_or0 (Repayment.amount ev)
  /\ step rate st ev
     = set_lastDate
         (Spec.allocate_payment (Number_or0 (Repayment.amount ev))
            (set_accrued st
               (accrue rate (principal st) (accrued st)
                  (whole_days evDate (lastDate st)))))
         evDate.
Proof.
  cbv zeta.
  assert (G : 0 <= Number_or0 (Loan.amountGiven Example.loan12))
    by (vm_compute; discriminate).
  assert (P : 0 < Number_or0
                    (Repayment.amount (Example.repayment 500 (Example.day 40))))
    by (vm_compute; reflexivity).
  split; [exact G|]. split; [exact P|].
  exact (payment_allocated_in_order Example.loan12 []
           (Example.repayment 500 (Example.day 40)) G P).
Defined.

Lemma minimum_interest_after_walk_witness :
  let loan := Example.loan12 in
  let asOf := Example.day 10 in
  let rate := dailyRate loan in
  Loan.date loan = Some (Example.day 0)
  /\ simulate loan asOf []
     = Spec.minimum_interest (Number_or0 (Loan.amountGiven loan)) rate
         (Spec.elapsedDays asOf (Example.day 0))
         (tail rate asOf (walk rate (start loan) [])).
Proof.
  cbv zeta. split; [reflexivity|].
  exact (proj1 (minimum_interest_after_walk Example.loan12 (Example.day 10) []
                  (Example.day 0) eq_refl)).
Defined.

Lemma normalizer_keeps_dated_in_stable_order_witness :
  exists evs,
    events Example.loan_dateless = Ok evs
    /\ Permutation evs
         (filter_dated
            [Some Example.dateless; None;
             Some (Example.repayment 50 (Example.day 1))]).
Proof.
  destruct (normalizer_keeps_dated_in_stable_order Example.loan_dateless)
    as [evs [E [_ H]]].
  exists evs. split; [exact E|].
  exact (proj1 (H _ eq_refl)).
Defined.

Lemma failure_is_contained_per_record_witness :
  let loans := [Example.loan12; Example.loan_unparseable; Example.loan365] in
  let out := fst (enrich_all_with Example.failing_body loans Example.world1) in
  nth_error loans 1 = Some Example.loan_unparseable
  /\ Example.failing_body (Example.day 50) Example.loan_unparseable = Throw
  /\ List.length out = 3%nat
  /\ nth_error out 1
     = Some (LoanView.mk Example.loan_unparseable None
               (Some (num_of_Z 10000)) (Some (num_of_Z 10000))).
Proof.
  cbv zeta. split; [reflexivity|]. split; [reflexivity|].
  destruct (failure_is_contained_per_record Example.failing_body
              [Example.loan12; Example.loan_unparseable; Example.loan365]
              Example.world1 1 Example.loan_unparseable eq_refl)
    as [L [T _]].
  split; [exact L|]. exact (T eq_refl).
Defined.

Lemma balance_from_ordered_transactions_witness :
  let w := Example.tx "Withdrawal" 30 None (DateLike (Some (Example.day 2))) in
  let d := Example.tx "Deposit" 100 None (DateLike (Some (Example.day 1))) in
  Deposit.transactions Example.deposit70 = Some (map Some [w; d])
  /\ [w; d] <> []
  /\ Forall Spec.dated_or_dateless [w; d]
  /\ Deposits.currentBalance Example.deposit70
     = Spec.balance_of (Spec.stable_sort Spec.effective_date [w; d]).
Proof.
  cbv zeta.
  assert (V : Forall Spec.dated_or_dateless
                [Example.tx "Withdrawal" 30 None (DateLike (Some (Example.day 2)));
                 Example.tx "Deposit" 100 None (DateLike (Some (Example.day 1)))]).
  { repeat constructor; discriminate. }
  split; [reflexivity|]. split; [discriminate|]. split; [exact V|].
  apply (balance_from_ordered_transactions Example.deposit70
           [Example.tx "Withdrawal" 30 None (DateLike (Some (Example.day 2)));
            Example.tx "Deposit" 100 None (DateLike (Some (Example.day 1)))]
           eq_refl);
    [discriminate | exact V].
Defined.

Lemma empty_or_failed_reconstruction_is_zero_witness :
  Deposits.balance_body Example.deposit_null = Throw
  /\ Deposits.currentBalance Example.deposit_null = 0.
Proof.
  destruct (empty_or_failed_reconstruction_is_zero Example.deposit_null)
    as [_ [Z [T _]]].
  assert (B : Deposits.balance_body Example.deposit_null = Throw).
  { apply (T _ eq_refl). right. left. reflexivity. }
  split; [exact B | exact (Z B)].
Defined.

Lemma zero_amount_event_without_lost_days_witness :
  let loan := Example.loan365 in
  let e1 := Example.repayment 100 (Example.day 10) in
  let e2 := Example.repayment 100 (Example.day 40) in
  let z := Example.repayment 0 (Example.day 10) in
  let asOf := Example.day 50 in
  Number_or0 (Repayment.amount z) = 0
  /\ lastDate (walk (dailyRate loan) (start loan) [e1]) = Some (Example.day 10)
  /\ Spec.same_amounts (simulate loan asOf ([e1] ++ z :: [e2]))
                       (simulate loan asOf ([e1] ++ [e2])).
Proof.
  cbv zeta. split; [reflexivity|]. split; [reflexivity|].
  exact (proj1 (proj2
    (zero_amount_event_without_lost_days Example.loan365 (Example.day 50)
       [Example.repayment 100 (Example.day 10)]
       [Example.repayment 100 (Example.day 40)]
       (Example.repayment 0 (Example.day 10))
       (Example.day 10) (Example.day 10) (Example.day 40)
       eq_refl eq_refl eq_refl eq_refl (or_introl eq_refl)))).
Defined.

Lemma enrichment_is_deterministic_witness :
  let loans := [Example.loan12; Example.loan365] in
  Example.world1 <> Example.world2
  /\ fst (enriched loans Example.world1) = fst (enriched loans Example.world2).
Proof.
  cbv zeta. split; [discriminate|].
  apply (enrichment_is_deterministic [Example.loan12; Example.loan365]
           Example.world1 Example.world2).
  intros i Hi. destruct i as [|[|i]]; [reflexivity | reflexivity |].
  simpl in Hi. lia.
Defined.

Lemma ledger_is_never_negative_witness :
  let loan := Example.loan12 in
  let evs := [Example.repayment 500 (Example.day 40)] in
  0 <= Number_or0 (Loan.amountGiven loan)
  /\ 0 <= Number_or0 (Loan.interestRate loan)
  /\ Spec.nonneg (simulate loan (Example.day 50) evs).
Proof.
  cbv zeta.
  assert (G : 0 <= Number_or0 (Loan.amountGiven Example.loan12))
    by (vm_compute; discriminate).
  assert (R : 0 <= Number_or0 (Loan.interestRate Example.loan12))
    by (vm_compute; discriminate).
  split; [exact G|]. split; [exact R|].
  exact (proj1 (proj2 (proj2 (proj2
    (ledger_is_never_negative Example.loan12 (Example.day 50)
       [Example.repayment 500 (Example.day 40)] G R))))).
Defined.

End Instances.

(** * Further properties of the handlers *)

(** ** The sum of the amounts received *)

Section Conservation.
Import JS Loans.
Local Open Scope Qc_scope.



End Conservation.

(** ** The waterfall of a payment and settled loans *)

Section Waterfall.
Import JS Loans.
Local Open Scope Qc_scope.

(** X2.  On a ledger with no negative principal or accrued interest, a
    payment goes to the accrued interest first, then to the principal, and
    only what exceeds both is an over-payment: a payment within the accrued
    interest leaves the principal alone; one within accrued plus principal
    clears the interest and takes the rest off the principal; a larger one
    clears both and puts the surplus in [extraInterestPaid]. *)
Theorem payment_waterfall (payment : num) (st : ledger) :
  0 < payment -> 0 <= principal st -> 0 <= accrued st ->
  let st' := allocate payment st in
  (payment <= accrued st ->
     principal st' = principal st
     /\ accrued st' = accrued st - payment
     /\ interestPaid st' = interestPaid st + payment
     /\ extraInterestPaid st' = extraInterestPaid st)
  /\ (accrued st <= payment -> payment <= accrued st + principal st ->
      principal st' = principal st - (payment - accrued st)
      /\ accrued st' = 0
      /\ interestPaid st' = interestPaid st + accrued st
      /\ extraInterestPaid st' = extraInterestPaid st)
  /\ (accrued st + principal st <= payment ->
      principal st' = 0
      /\ accrued st' = 0
      /\ interestPaid st' = interestPaid st + accrued st
      /\ extraInterestPaid st'
         = extraInterestPaid st + (payment - accrued st - principal st)).
Proof.
  intros Hpay Hp Ha st'. subst st'.
  rewrite (allocate_payment_spec payment st Hpay Hp).
  unfold Spec.allocate_payment.
  destruct st as [p a ip ex ld]. simpl in *.
  destruct (Math_min_cases payment a) as [[-> H1]|[-> H1]];
    match goal with
    | |- context [Math_min ?x ?y] =>
        destruct (Math_min_cases x y) as [[-> H2]|[-> H2]]
    end;
    (repeat split; intros;
     repeat match goal with H : _ |- _ => revert H end;
     clear; intros; to_Q; lra).
Qed.




Lemma dailyRate_zero (loan : Loan.t) :
  Number_or0 (Loan.interestRate loan) = 0 -> dailyRate loan = 0.
Proof.
  intro H. unfold dailyRate. rewrite H. unfold Qcdiv.
  now rewrite !Qcmult_0_l.
Qed.

Lemma accrue_rate_zero (p : num) (days : option Z) : accrue 0 p 0 days = 0.
Proof.
  unfold accrue. destruct (days_gt0 days && ltb 0 p); [|reflexivity].
  change num with Qc in *. ring.
Qed.

Lemma step_rate_zero (st : ledger) (ev : Repayment.t) :
  accrued st = 0 -> interestPaid st = 0 -> 0 <= extraInterestPaid st ->
  accrued (step 0 st ev) = 0
  /\ interestPaid (step 0 st ev) = 0
  /\ 0 <= extraInterestPaid (step 0 st ev).
Proof.
  intros Ha Hi He. unfold step. rewrite Ha, accrue_rate_zero.
  set (a := Number_or0 (Repayment.amount ev)).
  unfold allocate. simpl.
  destruct (ltb a 0); simpl; [auto|].
  destruct (ltb 0 a) eqn:P; simpl; [|auto].
  assert (M : Math_min a 0 = 0) by (unfold Math_min; now rewrite P).
  rewrite M, Hi. split; [to_Q; lra|]. split; [to_Q; lra|].
  destruct (ltb 0 (a - 0)).
  - destruct (ltb 0 (a - 0 - Math_min (a - 0) (principal st))) eqn:X;
      [|assumption].
    apply ltb_lt in X. to_Q. lra.
  - destruct (ltb 0 (a - 0)) eqn:X; [|assumption].
    apply ltb_lt in X. to_Q. lra.
Qed.

(** X4.  A loan at zero percent (or with no stored rate) never owes
    interest: whatever the events and the as-of instant, accrued interest
    and [interestPaid] stay at zero, the 30-day minimum adds nothing, and
    the amount due is the remaining principal. *)
Theorem interest_free_loan_owes_principal_only
    (loan : Loan.t) (asOf : Z) (evs : list Repayment.t) :
  Number_or0 (Loan.interestRate loan) = 0 ->
  let st := simulate loan asOf evs in
  accrued st = 0
  /\ interestPaid st = 0
  /\ principal st + accrued st = principal st.
Proof.
  intros H st.
  assert (W : forall l s,
             accrued s = 0 -> interestPaid s = 0 -> 0 <= extraInterestPaid s ->
             accrued (walk 0 s l) = 0
             /\ interestPaid (walk 0 s l) = 0
             /\ 0 <= extraInterestPaid (walk 0 s l)).
  { induction l as [|e es IH]; intros s Ha Hi He; simpl; [auto|].
    destruct (step_rate_zero s e Ha Hi He) as (A1 & I1 & E1).
    now apply IH. }
  assert (S : accrued st = 0 /\ interestPaid st = 0).
  { subst st. unfold simulate. rewrite (dailyRate_zero loan H).
    destruct (W evs (start loan) eq_refl eq_refl (Qcle_refl 0))
      as (A & I & E).
    set (w := walk 0 (start loan) evs) in *.
    assert (T : accrued (tail 0 asOf w) = 0)
      by (unfold tail; simpl; rewrite A; apply accrue_rate_zero).
    unfold enforce_minimum. rewrite (dailyRate_zero loan H).
    destruct (days_lt _ 30); [|now split].
    replace (interestPaid (tail 0 asOf w)) with (0 : Qc) by (symmetry; exact I).
    rewrite T.
    replace (extraInterestPaid (tail 0 asOf w)) with (extraInterestPaid w)
      by reflexivity.
    assert (L : ltb (0 + extraInterestPaid w + 0)
                    (Number_or0 (Loan.amountGiven loan) * 0 * num_of_Z 30)
                = false).
    { apply ltb_ge.
      replace (Number_or0 (Loan.amountGiven loan) * 0 * num_of_Z 30)
        with (0 : Qc) by (change num with Qc in *; ring).
      clear - E. to_Q. lra. }
    rewrite L. now split. }
  destruct S as [A I]. rewrite A.
  repeat split; try assumption. change num with Qc in *. ring.
Qed.

End Waterfall.

(** ** A loan without events *)

Section Minimum.
Import JS Loans.
Local Open Scope Qc_scope.

Lemma enforce_minimum_valid
    (loan : Loan.t) (asOf : Z) (st : ledger) (origination : Z) :
  Loan.date loan = Some origination ->
  enforce_minimum loan asOf st
  = Spec.minimum_interest (Number_or0 (Loan.amountGiven loan)) (dailyRate loan)
      (Spec.elapsedDays asOf origination) st.
Proof.
  intro Hd. unfold enforce_minimum. rewrite Hd, whole_days_valid. reflexivity.
Qed.

(** The tail accrual of a ledger that starts with no accrued interest. *)
Lemma first_accrual (rate a : num) (n : Z) :
  0 <= a -> (0 <= n)%Z ->
  Spec.accrued_after rate a 0 n = a * rate * num_of_Z n.
Proof.
  intros Ha Hn. unfold Spec.accrued_after.
  destruct (0 <? n)%Z eqn:N; simpl.
  - destruct (ltb 0 a) eqn:P.
    + change num with Qc in *. ring.
    + apply ltb_ge in P.
      assert (Z0 : a = 0) by now apply Qcle_antisym.
      rewrite Z0. change num with Qc in *. ring.
  - apply Z.ltb_ge in N. replace n with 0%Z by lia.
    change (num_of_Z 0) with (0 : Qc). change num with Qc in *. ring.
Qed.

(** X6.  A loan with no event left after normalization, a valid
    origination date at least 30 whole days before the as-of instant and
    [amountGiven >= 0]: nothing is received, the principal is the amount
    given, and the amount due adds simple interest for the whole days
    elapsed. *)
Theorem loan_without_events_after_30_days
    (loan : Loan.t) (asOf origination : Z) (raw : list (option Repayment.t)) :
  Loan.date loan = Some origination ->
  Loan.partialRepayments loan = Some raw ->
  filter_dated raw = [] ->
  0 <= Number_or0 (Loan.amountGiven loan) ->
  (30 <= Spec.elapsedDays asOf origination)%Z ->
  let given := Number_or0 (Loan.amountGiven loan) in
  let days := Spec.elapsedDays asOf origination in
  enrich_body asOf loan
  = Ok (LoanView.mk loan (Some 0) (Some given)
          (Some (given + given * dailyRate loan * num_of_Z days))).
Proof.
  intros Hd Hr Hf Hg Hn given days.
  unfold enrich_body, events. rewrite Hr, Hf. simpl bind.
  unfold simulate. simpl walk.
  rewrite (enforce_minimum_valid loan asOf _ origination Hd).
  unfold tail, start. simpl. rewrite Hd, accrue_valid.
  fold given.
  rewrite (first_accrual _ _ _ Hg (elapsedDays_nonneg asOf origination)).
  fold days. unfold Spec.minimum_interest.
  apply Z.ltb_ge in Hn. fold days in Hn. rewrite Hn.
  reflexivity.
Qed.

End Minimum.

(** ** Events in any order *)

Section AnyOrder.
Import JS Loans.
Local Open Scope Qc_scope.

Lemma filter_dated_perm (r1 r2 : list (option Repayment.t)) :
  Permutation r1 r2 -> Permutation (filter_dated r1) (filter_dated r2).
Proof.
  induction 1 as [|x l l' _ IH|x y l|l l' l'' _ IH1 _ IH2]; simpl.
  - constructor.
  - destruct x as [e|]; [|exact IH].
    destruct (truthy (Repayment.date e)); [now constructor | exact IH].
  - destruct x as [e|], y as [f|]; simpl;
      try destruct (truthy (Repayment.date e));
      try destruct (truthy (Repayment.date f));
      try apply Permutation_refl; apply perm_swap.
  - eapply perm_trans; eassumption.
Qed.

Lemma distinct_keys_In {A : Type} (key : A -> Z) (l : list A) (a b : A) :
  NoDup (map key l) -> In a l -> In b l -> key a = key b -> a = b.
Proof.
  induction l as [|x xs IH]; intros N Ia Ib E; [destruct Ia|].
  simpl in N. inversion N as [|? ? Nx Nxs]; subst.
  destruct Ia as [<-|Ia], Ib as [<-|Ib].
  - reflexivity.
  - exfalso. apply Nx. rewrite E. now apply in_map.
  - exfalso. apply Nx. rewrite <- E. now apply in_map.
  - now apply IH.
Qed.

(** Two ascending lists with the same entries and pairwise distinct keys
    are the same list. *)
Lemma ascending_unique {A : Type} (key : A -> Z) (l1 l2 : list A) :
  Spec.ascending key l1 -> Spec.ascending key l2 ->
  Permutation l1 l2 -> NoDup (map key l1) -> l1 = l2.
Proof.
  unfold Spec.ascending. revert l2.
  induction l1 as [|a l1 IH]; intros l2 S1 S2 P N.
  - apply Permutation_nil in P. now subst.
  - destruct l2 as [|b l2].
    + apply Permutation_sym, Permutation_nil in P. discriminate.
    + apply StronglySorted_inv in S1. destruct S1 as [S1 F1].
      apply StronglySorted_inv in S2. destruct S2 as [S2 F2].
      assert (Ia : In a (b :: l2)) by (apply (Permutation_in _ P); now left).
      assert (Ib : In b (a :: l1))
        by (apply (Permutation_in _ (Permutation_sym P)); now left).
      assert (E : key a = key b).
      { rewrite Forall_forall in F1, F2.
        destruct Ia as [->|Ia]; [reflexivity|].
        destruct Ib as [->|Ib]; [reflexivity|].
        specialize (F1 _ Ib). specialize (F2 _ Ia). simpl in *. lia. }
      assert (AB : a = b).
      { apply (distinct_keys_In key (a :: l1)); auto. now left. }
      subst b. f_equal.
      apply IH; try assumption.
      * now apply Permutation_cons_inv in P.
      * simpl in N. now inversion N.
Qed.

Lemma stable_sort_perm_unique {A : Type} (key : A -> Z) (l1 l2 : list A) :
  Permutation l1 l2 -> NoDup (map key l1) ->
  Spec.stable_sort key l1 = Spec.stable_sort key l2.
Proof.
  intros P N. apply (ascending_unique key).
  - apply stable_sort_ascending.
  - apply stable_sort_ascending.
  - eapply perm_trans; [apply stable_sort_perm|].
    eapply perm_trans; [exact P|]. apply Permutation_sym, stable_sort_perm.
  - apply (Permutation_NoDup (l := map key l1)); [|exact N].
    apply Permutation_map, Permutation_sym, stable_sort_perm.
Qed.

Lemma simulate_same_terms (a b : Loan.t) (asOf : Z) (evs : list Repayment.t) :
  Totals.same_terms a b -> simulate a asOf evs = simulate b asOf evs.
Proof.
  intros (Hd & Hr & Hg).
  unfold simulate, enforce_minimum, start, dailyRate.
  now rewrite Hd, Hr, Hg.
Qed.

(** X7.  The order in which the repayments are stored does not matter when
    their dates parse and are pairwise distinct: two loans with the same
    terms whose repayment lists are permutations of each other get the same
    event sequence, hence the same amountReceived, remainingPrincipal and
    dueAmount. *)
Theorem stored_order_of_repayments_is_irrelevant
    (a b : Loan.t) (asOf : Z) (raw1 raw2 : list (option Repayment.t)) :
  Totals.same_terms a b ->
  Loan.partialRepayments a = Some raw1 ->
  Loan.partialRepayments b = Some raw2 ->
  Permutation raw1 raw2 ->
  Forall Spec.parseable (filter_dated raw1) ->
  NoDup (map Spec.time_of (filter_dated raw1)) ->
  events a = events b
  /\ exists va vb,
       enrich_body asOf a = Ok va
       /\ enrich_body asOf b = Ok vb
       /\ LoanView.amountReceived va = LoanView.amountReceived vb
       /\ LoanView.remainingPrincipal va = LoanView.remainingPrincipal vb
       /\ LoanView.dueAmount va = LoanView.dueAmount vb.
Proof.
  intros T R1 R2 P V N.
  pose proof (filter_dated_perm _ _ P) as PF.
  assert (V2 : Forall Spec.parseable (filter_dated raw2))
    by (eapply Permutation_Forall; eassumption).
  assert (E : events a = events b).
  { unfold events. rewrite R1, R2.
    rewrite (Array_sort_by_key by_date Spec.time_of Spec.parseable
               by_date_parseable _ V).
    rewrite (Array_sort_by_key by_date Spec.time_of Spec.parseable
               by_date_parseable _ V2).
    f_equal. now apply stable_sort_perm_unique. }
  split; [exact E|].
  unfold enrich_body. rewrite <- E.
  destruct (events_total a) as [evs ->]. simpl.
  do 2 eexists. split; [reflexivity|]. split; [reflexivity|]. simpl.
  rewrite (simulate_same_terms a b asOf evs T). auto.
Qed.

End AnyOrder.

(** ** The names of the backups *)

Section BackupNames.
Import Backup.

Lemma below_in_seq (P : nat -> bool) (k : nat) :
  forallb P (seq 0 k) = true -> forall n, (n < k)%nat -> P n = true.
Proof.
  intros H n Hn. rewrite forallb_forall in H. apply H.
  apply in_seq. lia.
Qed.

Lemma pad2_length (n : nat) : (n < 100)%nat -> List.length (pad2 n) = 2%nat.
Proof.
  intro H.
  apply Nat.eqb_eq.
  apply (below_in_seq (fun n => (List.length (pad2 n) =? 2)%nat) 100);
    [vm_compute; reflexivity | exact H].
Qed.

Lemma pad2_inj (a b : nat) :
  (a < 100)%nat -> (b < 100)%nat -> pad2 a = pad2 b -> a = b.
Proof.
  intros Ha Hb E.
  assert (T : forallb
                (fun a => forallb
                   (fun b => implb
                      (String.eqb (string_of_list_ascii (pad2 a))
                                  (string_of_list_ascii (pad2 b)))
                      (a =? b)%nat)
                   (seq 0 100))
                (seq 0 100) = true) by (vm_compute; reflexivity).
  pose proof (below_in_seq _ 100 T a Ha) as Ta. cbv beta in Ta.
  pose proof (below_in_seq _ 100 Ta b Hb) as Tb. cbv beta in Tb.
  rewrite E, String.eqb_refl in Tb. simpl in Tb.
  now apply Nat.eqb_eq.
Qed.

Lemma to_int_proper (z : Z) :
  Z.to_int z <> Decimal.Pos Decimal.Nil /\ Z.to_int z <> Decimal.Neg Decimal.Nil.
Proof.
  destruct z as [|p|p]; simpl; split; try discriminate;
    intros [= H]; exact (DecimalPos.Unsigned.to_uint_nonnil p H).
Qed.

Lemma String_of_Z_inj (a b : Z) : String_of_Z a = String_of_Z b -> a = b.
Proof.
  unfold String_of_Z. intro E.
  apply (f_equal string_of_list_ascii) in E.
  rewrite !string_of_list_ascii_of_string in E.
  apply (f_equal NilZero.int_of_string) in E.
  destruct (to_int_proper a) as [A1 A2], (to_int_proper b) as [B1 B2].
  rewrite !NilZero.isi in E by assumption.
  injection E as E. now apply DecimalZ.to_int_inj.
Qed.

Lemma year_length (y : Z) :
  (1000 <= y <= 9999)%Z -> List.length (String_of_Z y) = 4%nat.
Proof.
  intro H.
  assert (T : forallb
                (fun n => (List.length (String_of_Z (Z.of_nat n + 1000)) =? 4)%nat)
                (seq 0 (90 * 100)) = true) by (vm_compute; reflexivity).
  pose proof (below_in_seq _ (90 * 100) T (Z.to_nat (y - 1000))) as B.
  cbv beta in B. apply Nat.eqb_eq.
  replace y with (Z.of_nat (Z.to_nat (y - 1000)) + 1000)%Z at 1 by lia.
  apply B. lia.
Qed.

Lemma app_inj_length {A : Type} (l1 l2 r1 r2 : list A) :
  l1 ++ r1 = l2 ++ r2 -> List.length l1 = List.length l2 ->
  l1 = l2 /\ r1 = r2.
Proof.
  revert l2. induction l1 as [|x l1 IH]; intros [|y l2] E L;
    simpl in *; try discriminate.
  - now split.
  - injection E as -> E. injection L as L.
    destruct (IH _ E L) as [-> ->]. now split.
Qed.

(** X11.  For a date in the years 1000 to 9999 the name [formatDate] gives
    has the fixed shape [YYYYMMDD_HHMM]: 13 characters, the underscore in
    position 8, the year in front. *)
Theorem formatDate_has_fixed_shape (d : date) :
  in_range d -> (1000 <= getFullYear d <= 9999)%Z ->
  List.length (formatDate d) = 13%nat
  /\ nth_error (formatDate d) 8 = Some "_"%char
  /\ firstn 4 (formatDate d) = String_of_Z (getFullYear d).
Proof.
  intros (Hm & Hd & Hh & Hn) Hy. unfold formatDate.
  fold (pad2 (getMonth d + 1)) (pad2 (getDate d)) (pad2 (getHours d))
       (pad2 (getMinutes d)).
  pose proof (year_length _ Hy) as Ly.
  assert (Lm : List.length (pad2 (getMonth d + 1)) = 2%nat)
    by (apply pad2_length; lia).
  assert (Ld : List.length (pad2 (getDate d)) = 2%nat)
    by (apply pad2_length; lia).
  assert (Lh : List.length (pad2 (getHours d)) = 2%nat)
    by (apply pad2_length; lia).
  assert (Ln : List.length (pad2 (getMinutes d)) = 2%nat)
    by (apply pad2_length; lia).
  repeat split.
  - rewrite !length_app, Ly, Lm, Ld, Lh, Ln. reflexivity.
  - rewrite nth_error_app2 by lia. rewrite Ly.
    rewrite nth_error_app2 by lia. rewrite Lm.
    rewrite nth_error_app2 by lia. rewrite Ld. reflexivity.
  - rewrite firstn_app, Ly, Nat.sub_diag, firstn_O, app_nil_r.
    rewrite <- Ly. apply firstn_all.
Qed.

(** X12.  Two dates that differ in the year, month, day, hour or minute
    get different backup names, whatever the year. *)
Theorem formatDate_is_injective (a b : date) :
  in_range a -> in_range b -> formatDate a = formatDate b -> a = b.
Proof.
  intros (Am & Ad & Ah & An) (Bm & Bd & Bh & Bn) E. unfold formatDate in E.
  fold (pad2 (getMonth a + 1)) (pad2 (getDate a)) (pad2 (getHours a))
       (pad2 (getMinutes a)) (pad2 (getMonth b + 1)) (pad2 (getDate b))
       (pad2 (getHours b)) (pad2 (getMinutes b)) in E.
  assert (La : forall d, in_range d ->
             List.length (pad2 (getMonth d + 1)) = 2%nat
             /\ List.length (pad2 (getDate d)) = 2%nat
             /\ List.length (pad2 (getHours d)) = 2%nat
             /\ List.length (pad2 (getMinutes d)) = 2%nat).
  { intros d (Hm & Hd & Hh & Hn). repeat split; apply pad2_length; lia. }
  destruct (La a (conj Am (conj Ad (conj Ah An)))) as (A1 & A2 & A3 & A4).
  destruct (La b (conj Bm (conj Bd (conj Bh Bn)))) as (B1 & B2 & B3 & B4).
  pose proof (f_equal (@List.length ascii) E) as L.
  rewrite !length_app, A1, A2, A3, A4, B1, B2, B3, B4 in L.
  destruct (app_inj_length _ _ _ _ E) as [Ey E1]; [lia|].
  destruct (app_inj_length _ _ _ _ E1) as [Em E2]; [lia|].
  destruct (app_inj_length _ _ _ _ E2) as [Ed E3]; [lia|].
  destruct (app_inj_length _ _ _ _ E3) as [_ E4]; [reflexivity|].
  destruct (app_inj_length _ _ _ _ E4) as [Eh En]; [lia|].
  apply String_of_Z_inj in Ey.
  apply pad2_inj in Em; [|lia|lia].
  apply pad2_inj in Ed; [|lia|lia].
  apply pad2_inj in Eh; [|lia|lia].
  apply pad2_inj in En; [|lia|lia].
  destruct a, b. simpl in *. f_equal; lia.
Qed.

End BackupNames.

(** ** The cleaning of old backups *)

Section BackupCleaning.
Import JS Backup.
Local Open Scope Qc_scope.

Lemma find_skip (p : entry -> bool) (pre rest : list entry) :
  Forall (fun e => p e = false) pre -> find p (pre ++ rest) = find p rest.
Proof.
  induction 1 as [|x xs Hx _ IH]; simpl; [reflexivity|].
  now rewrite Hx.
Qed.

Lemma rmSync_other (l : list entry) (backup : string) :
  ~ In backup (map name l) -> rmSync l backup = l.
Proof.
  intro N. unfold rmSync. induction l as [|x xs IH]; simpl; [reflexivity|].
  simpl in N.
  destruct (String.eqb_spec (name x) backup) as [E|E]; simpl.
  - exfalso. apply N. now left.
  - rewrite IH; [reflexivity|]. intro I. apply N. now right.
Qed.

(** Among distinct names, the stat of a listed entry is its own and its
    removal takes out that entry alone. *)
Lemma find_listed (pre rest : list entry) (e : entry) :
  NoDup (map name (pre ++ e :: rest)) ->
  find (fun x => String.eqb (name x) (name e)) (pre ++ e :: rest) = Some e
  /\ rmSync (pre ++ e :: rest) (name e) = pre ++ rest
  /\ NoDup (map name (pre ++ rest)).
Proof.
  intro N. rewrite map_app in N. simpl in N.
  pose proof (NoDup_remove_2 _ _ _ N) as Ne.
  pose proof (NoDup_remove_1 _ _ _ N) as Nr.
  rewrite in_app_iff in Ne. split; [|split].
  - rewrite find_skip.
    + simpl. now rewrite String.eqb_refl.
    + rewrite Forall_forall. intros x Hx.
      apply String.eqb_neq. intro E. apply Ne. left.
      rewrite <- E. now apply in_map.
  - unfold rmSync. rewrite filter_app. simpl.
    rewrite String.eqb_refl. simpl.
    fold (rmSync pre (name e)). fold (rmSync rest (name e)).
    rewrite !rmSync_other; tauto.
  - now rewrite map_app.
Qed.

(** The loop over the entries still to visit, the ones before them kept,
    when every stat succeeds. *)
Lemma forEach_backup_ok (retention now : Z) (todo pre : list entry) (c : nat) :
  NoDup (map name (pre ++ todo)) ->
  Forall (fun e => mtimeMs e <> None) todo ->
  forEach_backup retention now (map name todo) (pre ++ todo) c
  = Ok (pre ++ filter (fun e => negb (too_old retention now e)) todo,
        (c + List.length (filter (too_old retention now) todo))%nat).
Proof.
  intros N F. revert pre c N.
  induction F as [|e rest He Hrest IH]; intros pre c N; simpl.
  - now rewrite Nat.add_0_r.
  - destruct (find_listed pre rest e N) as (Hfind & Hrm & Nr).
    unfold statSync. rewrite Hfind.
    destruct (mtimeMs e) as [m|] eqn:M; [|congruence]. simpl.
    assert (T : too_old retention now e
                = ltb (num_of_Z retention) (ageInDays now m))
      by (unfold too_old; now rewrite M).
    rewrite T.
    destruct (ltb (num_of_Z retention) (ageInDays now m)); simpl.
    + rewrite Hrm, IH by exact Nr. f_equal. f_equal. lia.
    + replace (pre ++ e :: rest) with ((pre ++ [e]) ++ rest)
        by (now rewrite <- app_assoc).
      rewrite IH.
      * now rewrite <- app_assoc.
      * rewrite <- app_assoc. exact N.
Qed.

(** The loop stops with an exception at the first entry whose stat fails. *)
Lemma forEach_backup_throws (retention now : Z) (todo pre : list entry) (c : nat) :
  NoDup (map name (pre ++ todo)) ->
  Exists (fun e => mtimeMs e = None) todo ->
  forEach_backup retention now (map name todo) (pre ++ todo) c = Throw.
Proof.
  revert pre c. induction todo as [|e rest IH]; intros pre c N X.
  - inversion X.
  - simpl. destruct (find_listed pre rest e N) as (Hfind & Hrm & Nr).
    unfold statSync. rewrite Hfind.
    destruct (mtimeMs e) as [m|] eqn:M; [|reflexivity]. simpl.
    assert (Xr : Exists (fun e => mtimeMs e = None) rest).
    { inversion X as [? ? H|? ? H]; subst; [congruence | exact H]. }
    destruct (ltb (num_of_Z retention) (ageInDays now m)).
    + rewrite Hrm. now apply IH.
    + replace (pre ++ e :: rest) with ((pre ++ [e]) ++ rest)
        by (now rewrite <- app_assoc).
      apply IH; [|exact Xr]. rewrite <- app_assoc. exact N.
Qed.

Lemma stat_succeeds_or_fails (dir : list entry) :
  Forall (fun e => mtimeMs e <> None) dir
  \/ Exists (fun e => mtimeMs e = None) dir.
Proof.
  induction dir as [|e rest [F|X]].
  - left. constructor.
  - destruct (mtimeMs e) eqn:M.
    + left. constructor; [congruence | exact F].
    + right. now constructor.
  - right. now constructor 2.
Qed.



(** X14.  Cleaning twice at the same instant deletes nothing the second
    time: the directory left by [cleanOldBackups] is a fixed point. *)
Theorem cleanOldBackups_is_idempotent
    (retention now : Z) (dir kept : list entry) (deletedCount : nat) :
  NoDup (map name dir) ->
  cleanOldBackups retention now dir = Ok (kept, deletedCount) ->
  cleanOldBackups retention now kept = Ok (kept, 0%nat).
Proof.
  intros N E.
  assert (F : Forall (fun e => mtimeMs e <> None) dir).
  { destruct (stat_succeeds_or_fails dir) as [F|X]; [exact F|].
    exfalso. pose proof (forEach_backup_throws retention now dir [] 0 N X) as T.
    simpl in T. unfold cleanOldBackups in E. rewrite T in E.
    discriminate. }
  pose proof (forEach_backup_ok retention now dir [] 0 N F) as S.
  simpl in S. unfold cleanOldBackups in E. rewrite S in E.
  injection E as <- _.
  set (young := fun e => negb (too_old retention now e)).
  assert (Nk : NoDup (map name (filter young dir))).
  { clear S F. induction dir as [|x xs IH]; simpl; [constructor|].
    simpl in N. inversion N as [|? ? Nx Nxs]; subst.
    destruct (young x); simpl; [|now apply IH].
    constructor; [|now apply IH].
    intro I. apply Nx. apply in_map_iff in I. destruct I as (y & Ey & Iy).
    apply filter_In in Iy. rewrite <- Ey. apply in_map. tauto. }
  assert (Fk : Forall (fun e => mtimeMs e <> None) (filter young dir)).
  { rewrite Forall_forall in *. intros e He. apply F.
    apply filter_In in He. tauto. }
  pose proof (forEach_backup_ok retention now (filter young dir) [] 0 Nk Fk)
    as S2.
  simpl in S2. unfold cleanOldBackups. rewrite S2. fold young.
  f_equal. f_equal.
  - clear. induction dir as [|x xs IH]; simpl; [reflexivity|].
    destruct (young x) eqn:Y; simpl; [rewrite Y|]; now rewrite IH.
  - clear. induction dir as [|x xs IH]; simpl; [reflexivity|].
    destruct (young x) eqn:Y; simpl; [|exact IH].
    unfold young in Y. apply negb_true_iff in Y. now rewrite Y.
Qed.

(** The loop stops at a link whose target is gone. *)
Example cleaning_stops_at_a_dangling_link :
  cleanOldBackups 30 (Example.day 50) [Sample.new_backup; Sample.dangling_link]
  = Throw.
Proof. reflexivity. Qed.

End BackupCleaning.

(** ** The authentication middleware *)

Section Authentication.
Import JS Auth.

Lemma split_nonempty (sep : ascii) (s : str) : split sep s <> [].
Proof.
  destruct s as [|c rest]; simpl; [discriminate|].
  destruct (Ascii.eqb c sep); [discriminate|].
  destruct (split sep rest); discriminate.
Qed.

Lemma split_no_separator (sep : ascii) (s : str) :
  ~ In sep s -> split sep s = [s].
Proof.
  induction s as [|c rest IH]; intro N; simpl; [reflexivity|].
  destruct (Ascii.eqb_spec c sep) as [E|E].
  - exfalso. apply N. now left.
  - rewrite IH; [reflexivity|]. intro I. apply N. now right.
Qed.

Lemma split_at_separator (sep : ascii) (a b : str) :
  ~ In sep a -> split sep (a ++ sep :: b) = a :: split sep b.
Proof.
  induction a as [|c rest IH]; intro N; simpl.
  - now rewrite Ascii.eqb_refl.
  - destruct (Ascii.eqb_spec c sep) as [E|E].
    + exfalso. apply N. now left.
    + rewrite IH; [reflexivity|]. intro I. apply N. now right.
Qed.

(** X15.  The token is what stands between the first and the second space
    of the Authorization header: for a header [scheme token], possibly
    followed by a space and more, the middleware takes [token], whatever
    the scheme is; a header without a space, or with nothing between its
    first two spaces, carries no token. *)
Theorem token_is_the_second_word (scheme token rest : str) :
  ~ In " "%char scheme -> ~ In " "%char token ->
  (rest = [] \/ exists more, rest = " "%char :: more) ->
  token_of (Some (scheme ++ " "%char :: token ++ rest))
  = match token with
    | [] => None
    | _ => Some token
    end
  /\ token_of (Some scheme) = None.
Proof.
  intros Ns Nt R. split.
  - unfold token_of. rewrite (split_at_separator _ _ _ Ns).
    destruct R as [->|[more ->]].
    + rewrite app_nil_r, (split_no_separator _ _ Nt). simpl.
      now destruct token.
    + rewrite (split_at_separator _ _ _ Nt). simpl. now destruct token.
  - unfold token_of. now rewrite (split_no_separator _ _ Ns).
Qed.

Section Gate.
Context {Id User : Type}.
Context (verify : str -> outcome Id).
Context (findById : Id -> outcome (option User)).
Context (isActive : User -> bool).

(** X16.  The middleware lets a request through only with a token that
    verifies and names a user who is found and active, and then it passes
    on that very user and the identifier of the token; it answers 401
    exactly when the header carries no token. *)
Theorem only_active_users_pass (authHeader : option str) :
  (forall userId user,
     authenticateToken verify findById isActive authHeader = Next userId user
     <-> exists token,
           token_of authHeader = Some token
           /\ verify token = Ok userId
           /\ findById userId = Ok (Some user)
           /\ isActive user = true)
  /\ (authenticateToken verify findById isActive authHeader
      = Status401_token_required
      <-> token_of authHeader = None).
Proof.
  unfold authenticateToken. split.
  - intros userId user. split.
    + destruct (token_of authHeader) as [token|]; simpl; [|discriminate].
      destruct (verify token) as [decoded|] eqn:V; simpl; [|discriminate].
      destruct (findById decoded) as [[u|]|] eqn:F; simpl; try discriminate.
      destruct (isActive u) eqn:A; simpl; [|discriminate].
      intros [= <- <-]. exists token. auto.
    + intros (token & -> & V & F & A). simpl. rewrite V. simpl.
      rewrite F. simpl. now rewrite A.
  - split.
    + destruct (token_of authHeader) as [token|]; simpl; [|reflexivity].
      destruct (verify token) as [decoded|]; simpl; [|discriminate].
      destruct (findById decoded) as [[u|]|]; simpl; try discriminate.
      destruct (isActive u); discriminate.
    + intros ->. reflexivity.
Qed.

End Gate.

End Authentication.

(** ** The further theorems on the sample records *)

Section FurtherInstances.
Import JS Loans.
Local Open Scope Qc_scope.

Lemma payment_waterfall_witness :
  let st := Sample.owing in
  let payment := num_of_Z 100 in
  0 < payment /\ 0 <= principal st /\ 0 <= accrued st
  /\ accrued st <= payment /\ payment <= accrued st + principal st
  /\ principal (allocate payment st) = principal st - (payment - accrued st).
Proof.
  cbv zeta.
  assert (H1 : 0 < num_of_Z 100) by (vm_compute; reflexivity).
  assert (H2 : 0 <= principal Sample.owing) by (vm_compute; discriminate).
  assert (H3 : 0 <= accrued Sample.owing) by (vm_compute; discriminate).
  assert (H4 : accrued Sample.owing <= num_of_Z 100)
    by (vm_compute; discriminate).
  assert (H5 : num_of_Z 100 <= accrued Sample.owing + principal Sample.owing)
    by (vm_compute; discriminate).
  repeat (split; [assumption|]).
  exact (proj1 (proj1 (proj2
           (payment_waterfall (num_of_Z 100) Sample.owing H1 H2 H3)) H4 H5)).
Defined.


Lemma interest_free_loan_owes_principal_only_witness :
  let evs := [Example.repayment 100 (Example.day 10)] in
  Number_or0 (Loan.interestRate Sample.loan_free) = 0
  /\ accrued (simulate Sample.loan_free (Example.day 50) evs) = 0.
Proof.
  cbv zeta. split; [reflexivity|].
  exact (proj1 (interest_free_loan_owes_principal_only Sample.loan_free
                  (Example.day 50) [Example.repayment 100 (Example.day 10)]
                  eq_refl)).
Defined.

Lemma loan_without_events_after_30_days_witness :
  let loan := Sample.loan_plain in
  let given := Number_or0 (Loan.amountGiven loan) in
  filter_dated [Some Example.dateless; None] = []
  /\ 0 <= given
  /\ (30 <= Spec.elapsedDays (Example.day 50) (Example.day 0))%Z
  /\ enrich_body (Example.day 50) loan
     = Ok (LoanView.mk loan (Some 0) (Some given)
             (Some (given + given * dailyRate loan
                            * num_of_Z (Spec.elapsedDays (Example.day 50)
                                          (Example.day 0))))).
Proof.
  cbv zeta.
  assert (G : 0 <= Number_or0 (Loan.amountGiven Sample.loan_plain))
    by (vm_compute; discriminate).
  assert (N : (30 <= Spec.elapsedDays (Example.day 50) (Example.day 0))%Z)
    by (vm_compute; discriminate).
  split; [reflexivity|]. split; [exact G|]. split; [exact N|].
  exact (loan_without_events_after_30_days Sample.loan_plain (Example.day 50)
           (Example.day 0) [Some Example.dateless; None]
           eq_refl eq_refl eq_refl G N).
Defined.

Lemma stored_order_of_repayments_is_irrelevant_witness :
  let e10 := Example.repayment 100 (Example.day 10) in
  let e40 := Example.repayment 100 (Example.day 40) in
  Permutation [Some e10; Some e40] [Some e40; Some e10]
  /\ NoDup (map Spec.time_of (filter_dated [Some e10; Some e40]))
  /\ events Example.loan365 = events Sample.loan365_reversed.
Proof.
  cbv zeta.
  assert (P : Permutation
                [Some (Example.repayment 100 (Example.day 10));
                 Some (Example.repayment 100 (Example.day 40))]
                [Some (Example.repayment 100 (Example.day 40));
                 Some (Example.repayment 100 (Example.day 10))])
    by apply perm_swap.
  assert (V : Forall Spec.parseable
                (filter_dated
                   [Some (Example.repayment 100 (Example.day 10));
                    Some (Example.repayment 100 (Example.day 40))])).
  { repeat constructor; eexists; reflexivity. }
  assert (N : NoDup (map Spec.time_of
                       (filter_dated
                          [Some (Example.repayment 100 (Example.day 10));
                           Some (Example.repayment 100 (Example.day 40))]))).
  { constructor; [|constructor; [|constructor]].
    - intros [H|[]]. discriminate H.
    - intros []. }
  split; [exact P|]. split; [exact N|].
  exact (proj1 (stored_order_of_repayments_is_irrelevant
                  Example.loan365 Sample.loan365_reversed (Example.day 50)
                  _ _ (conj eq_refl (conj eq_refl eq_refl))
                  eq_refl eq_refl P V N)).
Defined.

Lemma october_in_range : Backup.in_range Sample.october.
Proof. unfold Backup.in_range. simpl. lia. Qed.

Lemma formatDate_has_fixed_shape_witness :
  (1000 <= Backup.getFullYear Sample.october <= 9999)%Z
  /\ List.length (Backup.formatDate Sample.october) = 13%nat.
Proof.
  assert (Y : (1000 <= Backup.getFullYear Sample.october <= 9999)%Z)
    by (simpl; lia).
  split; [exact Y|].
  exact (proj1 (formatDate_has_fixed_shape Sample.october october_in_range Y)).
Defined.

Lemma formatDate_is_injective_witness :
  Backup.formatDate Sample.october
  = list_ascii_of_string "20241011_1430"
  /\ Sample.october = Sample.october.
Proof.
  split; [reflexivity|].
  exact (formatDate_is_injective Sample.october Sample.october
           october_in_range october_in_range eq_refl).
Defined.

Lemma sample_names_distinct :
  NoDup (map Backup.name [Sample.old_backup; Sample.new_backup]).
Proof.
  constructor; [|constructor; [|constructor]].
  - intros [H|[]]. discriminate H.
  - intros [].
Qed.


Lemma cleanOldBackups_is_idempotent_witness :
  Backup.cleanOldBackups 30 (Example.day 50)
    [Sample.old_backup; Sample.new_backup]
  = Ok ([Sample.new_backup], 1%nat)
  /\ Backup.cleanOldBackups 30 (Example.day 50) [Sample.new_backup]
     = Ok ([Sample.new_backup], 0%nat).
Proof.
  assert (E : Backup.cleanOldBackups 30 (Example.day 50)
                [Sample.old_backup; Sample.new_backup]
              = Ok ([Sample.new_backup], 1%nat)) by reflexivity.
  split; [exact E|].
  exact (cleanOldBackups_is_idempotent 30 (Example.day 50)
           [Sample.old_backup; Sample.new_backup] [Sample.new_backup] 1
           sample_names_distinct E).
Defined.

Lemma token_is_the_second_word_witness :
  ~ In " "%char Sample.bearer /\ ~ In " "%char Sample.abc
  /\ Auth.token_of (Some (Sample.bearer ++ " "%char :: Sample.abc ++ []))
     = Some Sample.abc.
Proof.
  assert (N1 : ~ In " "%char Sample.bearer)
    by (simpl; intuition discriminate).
  assert (N2 : ~ In " "%char Sample.abc)
    by (simpl; intuition discriminate).
  split; [exact N1|]. split; [exact N2|].
  exact (proj1 (token_is_the_second_word Sample.bearer Sample.abc []
                  N1 N2 (or_introl eq_refl))).
Defined.

End FurtherInstances.
